(** * medpy.graphcut.parse: result parser and mapping applicator

    A shallow embedding of [src/medpy/graphcut/parse.py] (Python 2.7: the
    module uses [e.message] and auto-numbered [str.format] fields) and the
    properties its specification states about it.

    - Python [str] is a byte string: [list ascii].
    - Python [int]/[long] is unbounded: [Z].
    - A [dict] from integers to integers is [gmap Z Z].
    - Exceptions are values of [exn]; a computation that may raise returns
      [exn + A].
    - A NumPy array is a header over a buffer of a store; an element is an
      integer of [Z] kept within its element type by the cast of each
      assignment.
    - The logger singleton and the array store are threaded explicitly. *)

From Stdlib Require Import ZArith Ascii String DecimalString DecimalPos.
From stdpp Require Import gmap list.

Open Scope Z_scope.

(** ** Python values *)

Definition pystr : Type := list ascii.

(** A string literal of the source. *)
Definition str (s : string) : pystr := list_ascii_of_string s.

(** The line feed, ['\n']. *)
Definition LF : ascii := ascii_of_nat 10.

(** The exceptions the module raises or lets through.
    - [ValueError literal]: what [int()] raises,
      "invalid literal for int() with base 10: <literal>"; the message is kept
      as the argument it is formatted from.
    - [IndexError]: a list subscript out of range.
    - [OverflowError]: what an item assignment of NumPy raises for a Python
      integer that does not fit a C long.
    - [ArgumentError_Maleformed e]:
      [ArgumentError('Maleformed results argument: {}.'.format(e.message), e)].
    - [ArgumentError_NoConversion id]:
      [ArgumentError('No conversion for region id {} found in the supplied
      mapping.'.format(rav[i]))]. *)
Inductive exn : Type :=
| ValueError (literal : pystr)
| IndexError
| OverflowError
| ArgumentError_Maleformed (e : exn)
| ArgumentError_NoConversion (region_id : Z).

Definition bind_exn {A B : Type} (m : exn + A) (k : A -> exn + B) : exn + B :=
  match m with
  | inl e => inl e
  | inr a => k a
  end.

Notation "'do' x <- m ;; k" := (bind_exn m (fun x => k))
  (at level 10, x name, m at level 99, k at level 200).

(** ** String primitives *)

(** [isspace] of a byte: tab, line feed, vertical tab, form feed, carriage
    return, space. *)
Definition isspace (c : ascii) : bool :=
  let n := nat_of_ascii c in
  ((9 <=? n)%nat && (n <=? 13)%nat) || (n =? 32)%nat.

Definition isdigit (c : ascii) : bool :=
  let n := nat_of_ascii c in
  (48 <=? n)%nat && (n <=? 57)%nat.

Definition digit_value (c : ascii) : Z := Z.of_nat (nat_of_ascii c) - 48.

(** [s.split(sep)] for a one-character separator: always at least one piece. *)
Fixpoint split (sep : ascii) (s : pystr) : list pystr :=
  match s with
  | [] => [[]]
  | c :: s' =>
      if Ascii.eqb c sep then [] :: split sep s'
      else match split sep s' with
           | [] => [[c]]
           | l :: ls => (c :: l) :: ls
           end
  end.

(** [s.find(c)]: the index of the first occurrence, [-1] when there is none. *)
Fixpoint find_from (c : ascii) (s : pystr) (i : Z) : Z :=
  match s with
  | [] => -1
  | a :: s' => if Ascii.eqb a c then i else find_from c s' (i + 1)
  end.

Definition find (c : ascii) (s : pystr) : Z := find_from c s 0.

(** A slice bound as Python resolves it: a negative bound counts from the
    end, and the result is clipped to [0 .. len]. *)
Definition slice_bound (len i : Z) : nat :=
  Z.to_nat (Z.max 0 (Z.min len (if i <? 0 then i + len else i))).

(** [s[i:]] *)
Definition slice_from (s : pystr) (i : Z) : pystr :=
  drop (slice_bound (Z.of_nat (length s)) i) s.

(** [s[:j]] *)
Definition slice_to (s : pystr) (j : Z) : pystr :=
  take (slice_bound (Z.of_nat (length s)) j) s.

Fixpoint lstrip (s : pystr) : pystr :=
  match s with
  | [] => []
  | c :: s' => if isspace c then lstrip s' else s
  end.

Definition rstrip (s : pystr) : pystr := reverse (lstrip (reverse s)).

(** [s.strip()] *)
Definition strip (s : pystr) : pystr := rstrip (lstrip s).

(** The value of a run of decimal digits, [None] when a character is not a
    digit. *)
Fixpoint digits_value (acc : Z) (s : pystr) : option Z :=
  match s with
  | [] => Some acc
  | c :: s' =>
      if isdigit c then digits_value (10 * acc + digit_value c) s' else None
  end.

(** [int(s)] on a byte string, base 10: optional surrounding white space, an
    optional sign, at least one digit and nothing else. *)
Definition int (s : pystr) : exn + Z :=
  let t := strip s in
  let '(negative, d) :=
    match t with
    | c :: r =>
        if Ascii.eqb c "-" then (true, r)
        else if Ascii.eqb c "+" then (false, r)
        else (false, t)
    | [] => (false, t)
    end in
  match d with
  | [] => inl (ValueError s)
  | _ :: _ =>
      match digits_value 0 d with
      | Some n => inr (if negative then - n else n)
      | None => inl (ValueError s)
      end
  end.

(** ['{}'.format(n)] for an integer. *)
Definition format_int (n : Z) : pystr :=
  list_ascii_of_string (NilZero.string_of_int (Z.to_int n)).

(** ** The collaborators of the module *)

(** Modelled from the spec: the logging collaborator [..core.Logger], which is
    not among the sources. It "accepts informational and debug-severity text
    records" and has no return value; the singleton returned by
    [Logger.getInstance()] is the list of the records it was given. *)
Inductive severity : Type := INFO | DEBUG.

Definition Logger : Type := list (severity * pystr).

Definition info (msg : pystr) (logger : Logger) : Logger :=
  logger ++ [(INFO, msg)].

Definition debug (msg : pystr) (logger : Logger) : Logger :=
  logger ++ [(DEBUG, msg)].

(** Modelled from the spec: the marker constants [__BK_MFMC_SOURCE_MARKER] and
    [__BK_MFMC_SINK_MARKER] of [.generate], which is not among the sources.
    The spec gives their values once, "with SOURCE=0, SINK=1". The functions
    below take the markers as parameters; these two constants are the spec's
    instance of them. *)
Definition spec_SOURCE : Z := 0.
Definition spec_SINK : Z := 1.

(** ** BK_MFMC: the result parser *)

(** [subscript l i] is [l[i]] for [0 <= i]. *)
Definition subscript {A : Type} (l : list A) (i : nat) : exn + A :=
  match l !! i with
  | Some x => inr x
  | None => inl IndexError
  end.

(** [line[:line.find('=')]] *)
Definition key_field (line : pystr) : pystr :=
  slice_to line (find "=" line).

(** [line[line.find('=') + 1:]] *)
Definition value_field (line : pystr) : pystr :=
  slice_from line (find "=" line + 1).

(** [0 == len(line) or '#' == line[0]]: the lines the loop skips. *)
Definition is_skipped (line : pystr) : bool :=
  match line with
  | [] => true
  | c :: _ => Ascii.eqb "#" c
  end.

(** One turn of the loop over [lines[1:]]. The right-hand side of the
    assignment is evaluated before the subscript of its target. *)
Definition parse_line (nodes : gmap Z Z) (line : pystr) : exn + gmap Z Z :=
  let line := strip line in
  if is_skipped line then inr nodes
  else
    do v <- int (value_field line) ;;
    do k <- int (key_field line) ;;
    inr (<[k := v]> nodes).

Fixpoint parse_lines (nodes : gmap Z Z) (lines : list pystr) : exn + gmap Z Z :=
  match lines with
  | [] => inr nodes
  | line :: rest =>
      do nodes' <- parse_line nodes line ;;
      parse_lines nodes' rest
  end.

(** The statements of the [try] block up to the debug record. *)
Definition bk_mfmc_parse_body (output : pystr) : exn + (Z * gmap Z Z) :=
  let lines := split LF output in
  do line0 <- subscript lines 0 ;;
  do flow <- int (value_field line0) ;;
  do nodes <- parse_lines ∅ (drop 1 lines) ;;
  inr (flow, nodes).

(** [sum([1 if x == marker else 0 for x in nodes.values()])] *)
Definition count_marker (marker : Z) (nodes : gmap Z Z) : Z :=
  Z.of_nat
    (sum_list_with (fun x : Z => if decide (x = marker) then 1%nat else 0%nat)
       (map_to_list nodes).*2).

Section BK_MFMC.

(** [__BK_MFMC_SOURCE_MARKER] and [__BK_MFMC_SINK_MARKER], imported from
    [.generate]. *)
Variables BK_MFMC_SOURCE_MARKER BK_MFMC_SINK_MARKER : Z.

(** ['flow={}, #nodes={}, #source={}, #sink={}'.format(...)] *)
Definition debug_record (flow : Z) (nodes : gmap Z Z) : pystr :=
  str "flow=" ++ format_int flow
  ++ str ", #nodes=" ++ format_int (Z.of_nat (size nodes))
  ++ str ", #source=" ++ format_int (count_marker BK_MFMC_SOURCE_MARKER nodes)
  ++ str ", #sink=" ++ format_int (count_marker BK_MFMC_SINK_MARKER nodes).

(** [bk_mfmc_parse(output)]: the logger before the call goes in, the logger
    after the call comes out with what the call returns or raises. Only a
    [ValueError] is turned into an [ArgumentError]. *)
Definition bk_mfmc_parse (output : pystr) (logger : Logger)
  : Logger * (exn + (Z * gmap Z Z)) :=
  let logger := info (str "Parsing results...") logger in
  match bk_mfmc_parse_body output with
  | inr (flow, nodes) => (debug (debug_record flow nodes) logger, inr (flow, nodes))
  | inl (ValueError literal) =>
      (logger, inl (ArgumentError_Maleformed (ValueError literal)))
  | inl e => (logger, inl e)
  end.

End BK_MFMC.

(** ** General functions: the mapping applicator *)

(** NumPy arrays of integers, as NumPy behaves under Python 2.7 on a platform
    whose C long has 64 bits.

    An array object is a header: the buffer it views, its shape, its element
    type and its memory order. The buffers live in a store, so that two
    headers over one buffer alias. A buffer is kept as the list of its
    elements in the logical (row-major) order of the array, the order in
    which [ravel()] lists them; the memory order only decides whether
    [ravel()] can be a view. *)
Abbreviation loc := positive (only parsing).

Inductive dtype : Type :=
| int8 | int16 | int32 | int64 | uint8 | uint16 | uint32 | uint64.

Definition bits (dt : dtype) : Z :=
  match dt with
  | int8 | uint8 => 8
  | int16 | uint16 => 16
  | int32 | uint32 => 32
  | int64 | uint64 => 64
  end.

Definition is_signed (dt : dtype) : bool :=
  match dt with
  | int8 | int16 | int32 | int64 => true
  | uint8 | uint16 | uint32 | uint64 => false
  end.

(** The C conversion of an integer to the element type: the value modulo
    [2 ^ bits], read as a signed number for the signed types. In [uint8],
    256 becomes 0. *)
Definition cast (dt : dtype) (v : Z) : Z :=
  let m := v mod 2 ^ bits dt in
  if is_signed dt && (2 ^ (bits dt - 1) <=? m) then m - 2 ^ bits dt else m.

(** The Python integers an item assignment accepts. NumPy converts the
    integer to a C long before the cast (for [uint32] and [uint64] to a C
    unsigned long and, failing that, to a C long); an integer out of that
    range raises [OverflowError]. *)
Definition fits_C_long (dt : dtype) (v : Z) : bool :=
  match dt with
  | uint32 | uint64 => (- 2 ^ 63 <=? v) && (v <? 2 ^ 64)
  | _ => (- 2 ^ 63 <=? v) && (v <? 2 ^ 63)
  end.

(** [fortran] holds for an array that is Fortran-contiguous and not
    C-contiguous. *)
Record ndarray : Type :=
  mk_ndarray { buf : loc; shape : list nat; dtype_of : dtype; fortran : bool }.

Abbreviation store := (gmap loc (list Z)) (only parsing).

(** A boolean array, by value: the result of [astype(scipy.bool_)], which is
    always a new array. *)
Record mask : Type := mk_mask { mask_shape : list nat; mask_data : list bool }.

(** The elements of the buffer an array views, in row-major order. *)
Definition elems (a : ndarray) (st : store) : list Z := st !!! buf a.

(** [scipy.array(a)]: a new array over a new buffer holding a copy of the
    elements ([copy=True] is the default), of the element type and the memory
    order of [a]. *)
Definition array (a : ndarray) (st : store) : ndarray * store :=
  let b := fresh (dom st) in
  (mk_ndarray b (shape a) (dtype_of a) (fortran a), <[b := elems a st]> st).

(** [a.ravel()]: a one-dimensional view of the same buffer when [a] is
    C-contiguous, a one-dimensional copy in a new buffer when it is not. *)
Definition ravel (a : ndarray) (st : store) : ndarray * store :=
  let n := length (elems a st) in
  if fortran a then
    let b := fresh (dom st) in
    (mk_ndarray b [n] (dtype_of a) false, <[b := elems a st]> st)
  else (mk_ndarray (buf a) [n] (dtype_of a) false, st).

(** [a.reshape(shape)]: a view of the same buffer. *)
Definition reshape (a : ndarray) (sh : list nat) : ndarray :=
  mk_ndarray (buf a) sh (dtype_of a) false.

(** [a.astype(scipy.bool_)]: an element is [True] when it is not zero. *)
Definition astype_bool (a : ndarray) (st : store) : mask :=
  mk_mask (shape a) ((fun x : Z => negb (x =? 0)) <$> elems a st).

(** [rav[i] = v] for a Python integer [v]: [OverflowError] when [v] does not
    fit the C long, else the element becomes [v] cast to the element type. *)
Definition setitem (rav : ndarray) (i : nat) (v : Z) (st : store)
  : exn + store :=
  if fits_C_long (dtype_of rav) v then
    inr (<[buf rav := <[i := cast (dtype_of rav) v]> (elems rav st)]> st)
  else inl OverflowError.

(** The loop [for i in range(len(rav))], over the indices still to visit. *)
Fixpoint apply_mapping_loop (mapping : gmap Z Z) (rav : ndarray)
    (range : list nat) (st : store) : store * (exn + unit) :=
  match range with
  | [] => (st, inr tt)
  | i :: range' =>
      match elems rav st !! i with
      | None => (st, inl IndexError)
      | Some r =>
          match mapping !! r with
          | None => (st, inl (ArgumentError_NoConversion r))
          | Some v =>
              match setitem rav i v st with
              | inl e => (st, inl e)
              | inr st' => apply_mapping_loop mapping rav range' st'
              end
          end
      end
  end.

(** [apply_mapping(label_image, mapping)]: the store before the call goes in,
    the store after the call comes out with what the call returns or raises. *)
Definition apply_mapping (label_image : ndarray) (mapping : gmap Z Z)
    (st : store) : store * (exn + mask) :=
  let '(label_image, st) := array label_image st in
  let '(rav, st) := ravel label_image st in
  let '(st, r) :=
    apply_mapping_loop mapping rav (seq 0 (length (elems rav st))) st in
  match r with
  | inl e => (st, inl e)
  | inr _ => (st, inr (astype_bool (reshape rav (shape label_image)) st))
  end.

(** ** Vocabulary of the properties *)

(** The lines of a solver output: [lines[0]] and [lines[1:]]. *)
Definition first_line (output : pystr) : pystr :=
  default [] (split LF output !! 0%nat).

Definition later_lines (output : pystr) : list pystr :=
  drop 1 (split LF output).

(** A line the loop does not skip: not blank and not a comment. *)
Definition is_record (line : pystr) : bool := negb (is_skipped (strip line)).

Definition int_fails (s : pystr) : bool :=
  match int s with
  | inl _ => true
  | inr _ => false
  end.

(** A record line one of whose fields [int()] refuses. *)
Definition non_numeric (line : pystr) : bool :=
  is_record line
  && (int_fails (value_field (strip line)) || int_fails (key_field (strip line))).

(** An output with a line that is not numeric where a number is read: the
    flow of line 0, or a field of a later record line. *)
Definition malformed (output : pystr) : bool :=
  int_fails (value_field (first_line output))
  || existsb non_numeric (later_lines output).

(** The fields [int()] is applied to while an output is parsed. *)
Definition parsed_field (output : pystr) (field : pystr) : Prop :=
  field = value_field (first_line output)
  \/ exists line, line ∈ later_lines output /\ is_record line = true
       /\ (field = value_field (strip line) \/ field = key_field (strip line)).

(** What a later line contributes: its node id and affiliation code, when it
    is a record line with two numeric fields. *)
Definition record_of (line : pystr) : option (Z * Z) :=
  if is_record line then
    match int (key_field (strip line)), int (value_field (strip line)) with
    | inr k, inr v => Some (k, v)
    | _, _ => None
    end
  else None.

(** The affiliation code of the last record line with node id [k]. *)
Definition last_code (k : Z) (lines : list pystr) : option Z :=
  snd <$> last (filter (fun kv : Z * Z => kv.1 = k) (omap record_of lines)).

Definition has_minus (s : pystr) : bool := existsb (Ascii.eqb "-") s.

(** Well-formed solver outputs, as the solver prints them. *)
Inductive output_line : Type :=
| Entry (id code : Z)            (* id=code *)
| Blank (ws : pystr)             (* white space only *)
| Comment (ws text : pystr).     (* white space, '#', any text *)

Definition no_LF (s : pystr) : bool :=
  forallb (fun c => negb (Ascii.eqb c LF)) s.

Definition well_formed (l : output_line) : bool :=
  match l with
  | Entry _ _ => true
  | Blank ws => forallb isspace ws && no_LF ws
  | Comment ws text => forallb isspace ws && no_LF ws && no_LF text
  end.

Definition print_line (l : output_line) : pystr :=
  match l with
  | Entry id code => format_int id ++ str "=" ++ format_int code
  | Blank ws => ws
  | Comment ws text => ws ++ str "#" ++ text
  end.

(** [flow=F], then one line per item, each after a line feed. *)
Definition solver_output (F : Z) (ls : list output_line) : pystr :=
  str "flow=" ++ format_int F ++ concat ((fun l => LF :: print_line l) <$> ls).

Definition entry_of (l : output_line) : option (Z * Z) :=
  match l with
  | Entry id code => Some (id, code)
  | _ => None
  end.

(** The dictionary [{id: code, ...}] of the [id=code] lines, a later line
    replacing an earlier one with the same id. *)
Definition entries (ls : list output_line) : gmap Z Z :=
  list_to_map (reverse (omap entry_of ls)).

(** The example output of the spec:
    ["flow=12\n1=0\n2=1\n# comment\n\n3=0"]. *)
Definition example_output : pystr :=
  str "flow=12" ++ LF :: str "1=0" ++ LF :: str "2=1" ++ LF :: str "# comment"
  ++ LF :: LF :: str "3=0".

(** Horner evaluation of a decimal numeral. *)
Fixpoint uint_value (acc : Z) (d : Decimal.uint) : Z :=
  match d with
  | Decimal.Nil => acc
  | Decimal.D0 d => uint_value (10 * acc + 0) d
  | Decimal.D1 d => uint_value (10 * acc + 1) d
  | Decimal.D2 d => uint_value (10 * acc + 2) d
  | Decimal.D3 d => uint_value (10 * acc + 3) d
  | Decimal.D4 d => uint_value (10 * acc + 4) d
  | Decimal.D5 d => uint_value (10 * acc + 5) d
  | Decimal.D6 d => uint_value (10 * acc + 6) d
  | Decimal.D7 d => uint_value (10 * acc + 7) d
  | Decimal.D8 d => uint_value (10 * acc + 8) d
  | Decimal.D9 d => uint_value (10 * acc + 9) d
  end.

Definition uint_chars (d : Decimal.uint) : pystr :=
  list_ascii_of_string (NilEmpty.string_of_uint d).

(** What the loop computes, read off a list: the values stored for the region
    ids, or the first error, for an unmapped region id or for a mapped value
    that does not fit. *)
Fixpoint translate (dt : dtype) (mapping : gmap Z Z) (ids : list Z)
  : exn + list Z :=
  match ids with
  | [] => inr []
  | r :: ids' =>
      match mapping !! r with
      | None => inl (ArgumentError_NoConversion r)
      | Some v =>
          if fits_C_long dt v then
            match translate dt mapping ids' with
            | inl e => inl e
            | inr vs => inr (cast dt v :: vs)
            end
          else inl OverflowError
      end
  end.

(** A region id whose mapped value an item assignment accepts. *)
Definition storable (dt : dtype) (mapping : gmap Z Z) (r : Z) : Prop :=
  exists v, mapping !! r = Some v /\ fits_C_long dt v = true.

(** The statement of the spec on the mask, for one call: every element of the
    returned mask is true exactly when the mapped value is the source
    marker. *)
Definition mask_tests_source (SOURCE : Z) (label_image : ndarray)
    (mapping : gmap Z Z) (st : store) : Prop :=
  (forall r, r ∈ elems label_image st -> is_Some (mapping !! r)) ->
  forall st' m, apply_mapping label_image mapping st = (st', inr m) ->
  forall (i : nat) r v, elems label_image st !! i = Some r ->
    mapping !! r = Some v ->
    mask_data m !! i = Some (bool_decide (v = SOURCE)).

(** The statement of the spec on unmapped region ids, for one call: when some
    region id of the image is not in the mapping, the call raises the error
    for the first such id. *)
Definition first_unmapped_raised (label_image : ndarray)
    (mapping : gmap Z Z) (st : store) : Prop :=
  (exists r, r ∈ elems label_image st /\ mapping !! r = None) ->
  exists pre r post,
    elems label_image st = pre ++ r :: post
    /\ (forall x, x ∈ pre -> is_Some (mapping !! x))
    /\ mapping !! r = None
    /\ (apply_mapping label_image mapping st).2
       = inl (ArgumentError_NoConversion r).

(** The mask with every element equal to [b]. *)
Definition constant_mask (label_image : ndarray) (st : store) (b : bool) : mask :=
  mk_mask (shape label_image) (replicate (length (elems label_image st)) b).

(** The statement of the spec on the range of the parser's results, for one
    output. *)
Definition results_in_range (SOURCE SINK : Z) (output : pystr) : Prop :=
  forall logger flow nodes,
    (bk_mfmc_parse SOURCE SINK output logger).2 = inr (flow, nodes) ->
    0 <= flow
    /\ forall k v, nodes !! k = Some v -> 0 <= k /\ (v = SOURCE \/ v = SINK).

(** The example image of the spec, [[1,2],[3,1]], held by the caller at
    location 1, and mappings for it. *)
Definition example_image : ndarray :=
  mk_ndarray 1%positive [2; 2]%nat int64 false.

(** The same buffer seen as a Fortran-ordered image of unsigned bytes, and a
    mapping for it whose values are not the markers and one of which, 256,
    is stored as 0. *)
Definition example_image_uint8 : ndarray :=
  mk_ndarray 1%positive [2; 2]%nat uint8 true.

Definition mapping_256 : gmap Z Z := {[ 1 := 256; 2 := 3; 3 := -1 ]}.

(** A mapping without the region id 2 whose value for the region id 1,
    [2 ** 63], does not fit a C long. *)
Definition mapping_overflow : gmap Z Z :=
  {[ 1 := 9223372036854775808; 3 := 1 ]}.

Definition example_store : gmap positive (list Z) :=
  {[ 1%positive := [1; 2; 3; 1] ]}.

Definition mapping_012 : gmap Z Z := {[ 1 := 0; 2 := 1; 3 := 2 ]}.

Definition mapping_to (v : Z) : gmap Z Z := {[ 1 := v; 2 := v; 3 := v ]}.

Definition mapping_without_2 : gmap Z Z := {[ 1 := 1; 3 := 1 ]}.

(** Outputs used to exercise the parser:
    ["flow=5\nabc\n"], ["flow=1\n7=0\n7=1"], ["flow=-3\n-1=7"],
    ["flow=1\n123"] and ["12"]. *)
Definition output_abc : pystr := str "flow=5" ++ LF :: str "abc" ++ [LF].

Definition output_repeated_id : pystr :=
  str "flow=1" ++ LF :: str "7=0" ++ LF :: str "7=1".

Definition output_negative : pystr := str "flow=-3" ++ LF :: str "-1=7".

Definition output_no_equals : pystr := str "flow=1" ++ LF :: str "123".

Definition output_bare_number : pystr := str "12".

(** The lines of [example_output] after its first, as the solver prints them. *)
Definition example_lines : list output_line :=
  [Entry 1 0; Entry 2 1; Comment [] (str " comment"); Blank []; Entry 3 0].

(** The carriage return, ['\r']. *)
Definition CR : ascii := ascii_of_nat 13.

(** White space that stays inside one line. *)
Definition blanks (ws : pystr) : bool := forallb isspace ws && no_LF ws.

(** Solver outputs with white space around the numbers: an entry line is
    [w1 id w2 = w3 code w4]. *)
Inductive padded_line : Type :=
| PEntry (w1 w2 w3 w4 : pystr) (id code : Z)
| PBlank (ws : pystr)
| PComment (ws text : pystr).

Definition well_padded (l : padded_line) : bool :=
  match l with
  | PEntry w1 w2 w3 w4 _ _ => blanks w1 && blanks w2 && blanks w3 && blanks w4
  | PBlank ws => blanks ws
  | PComment ws text => blanks ws && no_LF text
  end.

Definition print_padded (l : padded_line) : pystr :=
  match l with
  | PEntry w1 w2 w3 w4 id code =>
      w1 ++ format_int id ++ w2 ++ str "=" ++ w3 ++ format_int code ++ w4
  | PBlank ws => ws
  | PComment ws text => ws ++ str "#" ++ text
  end.

(** [flow=] [wa] [F] [wb], then one line per item, each after a line feed. *)
Definition padded_output (wa wb : pystr) (F : Z) (ls : list padded_line) : pystr :=
  str "flow=" ++ wa ++ format_int F ++ wb
  ++ concat ((fun l => LF :: print_padded l) <$> ls).

Definition unpad (l : padded_line) : output_line :=
  match l with
  | PEntry _ _ _ _ id code => Entry id code
  | PBlank ws => Blank ws
  | PComment ws text => Comment ws text
  end.

(** The example output of the spec with CR LF line ends and spaces around
    the ['='] of its first entry. *)
Definition example_padded_lines : list padded_line :=
  [PEntry [] (str " ") (str " ") [CR] 1 0; PEntry [] [] [] [CR] 2 1;
   PComment [] (str " comment" ++ [CR]); PBlank [CR]; PEntry [] [] [] [] 3 0].

(** What one more line does to the dictionary. *)
Definition add_record (nodes : gmap Z Z) (line : pystr) : gmap Z Z :=
  match record_of line with
  | Some (k, v) => <[k := v]> nodes
  | None => nodes
  end.

(** The field of a non-numeric record line that [int()] refuses first: the
    code, which the assignment evaluates before the node id. *)
Definition refused_field (line : pystr) : pystr :=
  if int_fails (value_field (strip line)) then value_field (strip line)
  else key_field (strip line).

(** Values for the examples: a mapping with an entry the example image does
    not use, and an image without elements. *)
Definition mapping_012_extra : gmap Z Z := <[ 9 := 5 ]> mapping_012.

Definition empty_image : ndarray := mk_ndarray 2%positive [0]%nat int64 false.

Definition empty_store : gmap positive (list Z) := {[ 2%positive := [] ]}.

Definition output_then_bad : pystr :=
  str "flow=1" ++ LF :: str "1=0" ++ LF :: str "x=y" ++ LF :: str "zz".

(** The mapping of [example_output]. *)
Definition example_nodes : gmap Z Z := {[ 1 := 0; 2 := 1; 3 := 0 ]}.

(** A text without ['='] and without line feed: what may stand before the
    ['='] of line 0. *)
Definition plain_prefix (s : pystr) : bool :=
  forallb (fun c => negb (Ascii.eqb c "=") && negb (Ascii.eqb c LF)) s.

(** An image with a region id, 5, that [example_output] has no line for. *)
Definition image_with_5 : ndarray :=
  mk_ndarray 3%positive [3]%nat int64 false.

Definition store_with_5 : gmap positive (list Z) :=
  {[ 3%positive := [1; 5; 2] ]}.

(** A region id with a record line in the later lines of an output. *)
Definition has_record (lines : list pystr) (r : Z) : Prop :=
  exists line v, line ∈ lines /\ record_of line = Some (r, v).

(** The node ids of the record lines, in the order of the lines. *)
Definition record_ids (lines : list pystr) : list Z :=
  (omap record_of lines).*1.

(** [example_output] with its entries in another order. *)
Definition example_reordered : pystr :=
  str "flow=12" ++ LF :: str "2=1" ++ LF :: str "1=0" ++ LF :: str "# comment"
  ++ LF :: LF :: str "3=0".

(** * Properties *)

(** ** The mapping applicator *)

Section apply_mapping_facts.

Context (mapping : gmap Z Z).

Lemma setitem_inr rav i v st st' :
  setitem rav i v st = inr st' ->
  fits_C_long (dtype_of rav) v = true
  /\ st' = <[buf rav := <[i := cast (dtype_of rav) v]> (elems rav st)]> st.
Proof.
  unfold setitem. destruct (fits_C_long (dtype_of rav) v); [|done].
  by intros [= <-].
Qed.

Lemma setitem_fits rav i v st :
  fits_C_long (dtype_of rav) v = true ->
  setitem rav i v st
  = inr (<[buf rav := <[i := cast (dtype_of rav) v]> (elems rav st)]> st).
Proof. unfold setitem. by intros ->. Qed.

Lemma setitem_overflow rav i v st :
  fits_C_long (dtype_of rav) v = false -> setitem rav i v st = inl OverflowError.
Proof. unfold setitem. by intros ->. Qed.

(** The loop writes to the buffer of [rav] only. *)
Lemma apply_mapping_loop_frame rav range st l :
  l ≠ buf rav -> (apply_mapping_loop mapping rav range st).1 !! l = st !! l.
Proof.
  intros Hl. revert st.
  induction range as [|i range IH]; intros st; simpl; [done|].
  destruct (elems rav st !! i) as [r|]; [|done].
  destruct (mapping !! r) as [v|]; [|done].
  destruct (setitem rav i v st) as [e|st'] eqn:Hset; [done|].
  apply setitem_inr in Hset as [_ ->].
  rewrite IH. by rewrite lookup_insert_ne.
Qed.

(** The loop over the indices of [rest], once [visited] has been written. *)
Lemma apply_mapping_loop_seq rav visited rest st :
  elems rav st = visited ++ rest ->
  match translate (dtype_of rav) mapping rest with
  | inl e =>
      (apply_mapping_loop mapping rav (seq (length visited) (length rest)) st).2
      = inl e
  | inr vs =>
      exists st',
        apply_mapping_loop mapping rav (seq (length visited) (length rest)) st
        = (st', inr tt)
        /\ elems rav st' = visited ++ vs
  end.
Proof.
  revert visited st.
  induction rest as [|r rest IH]; intros visited st Hst; simpl.
  - exists st. by rewrite Hst.
  - assert (Hr : elems rav st !! length visited = Some r).
    { rewrite Hst. by rewrite list_lookup_middle. }
    rewrite Hr. destruct (mapping !! r) as [v|] eqn:Hv; [|done].
    destruct (fits_C_long (dtype_of rav) v) eqn:Hfits.
    2:{ by rewrite (setitem_overflow rav _ v st Hfits). }
    rewrite (setitem_fits rav _ v st Hfits).
    set (st1 := <[buf rav := <[length visited := cast (dtype_of rav) v]>
                               (elems rav st)]> st).
    specialize (IH (visited ++ [cast (dtype_of rav) v]) st1).
    rewrite length_app in IH. simpl in IH.
    replace (length visited + 1)%nat with (S (length visited)) in IH by lia.
    assert (Hst1 : elems rav st1 = (visited ++ [cast (dtype_of rav) v]) ++ rest).
    { unfold elems, st1. rewrite lookup_total_insert_eq.
      fold (elems rav st). rewrite Hst.
      replace (length visited) with (length visited + 0)%nat at 1 by lia.
      rewrite insert_app_r. simpl. by rewrite <- app_assoc. }
    specialize (IH Hst1).
    destruct (translate (dtype_of rav) mapping rest) as [e|vs]; [done|].
    destruct IH as (st' & Hloop & Helems).
    exists st'. split; [done|].
    rewrite Helems. by rewrite <- app_assoc.
Qed.

Lemma translate_inr dt ids vs :
  translate dt mapping ids = inr vs ->
  Forall2 (fun r x => exists v, mapping !! r = Some v
                                /\ fits_C_long dt v = true /\ x = cast dt v)
    ids vs.
Proof.
  revert vs. induction ids as [|r ids IH]; intros vs; simpl.
  - intros [= <-]. constructor.
  - destruct (mapping !! r) as [v|] eqn:Hv; [|done].
    destruct (fits_C_long dt v) eqn:Hfits; [|done].
    destruct (translate dt mapping ids) as [e|vs']; [done|].
    intros [= <-]. constructor; [by exists v|]. by apply IH.
Qed.

Lemma translate_total dt ids :
  (forall r, r ∈ ids -> storable dt mapping r) ->
  exists vs, translate dt mapping ids = inr vs.
Proof.
  induction ids as [|r ids IH]; intros Hall; simpl; [by eexists|].
  destruct (Hall r) as (v & Hv & Hfits); [by left|]. rewrite Hv, Hfits.
  destruct IH as [vs Hvs].
  { intros r' Hr'. apply Hall. by right. }
  rewrite Hvs. by eexists.
Qed.

(** The three outcomes of the loop. *)
Lemma translate_inl dt ids e :
  translate dt mapping ids = inl e ->
  exists pre r post,
    ids = pre ++ r :: post
    /\ (forall x, x ∈ pre -> storable dt mapping x)
    /\ ((mapping !! r = None /\ e = ArgumentError_NoConversion r)
        \/ (exists v, mapping !! r = Some v /\ fits_C_long dt v = false
                      /\ e = OverflowError)).
Proof.
  induction ids as [|x ids IH]; simpl; [done|].
  destruct (mapping !! x) as [v|] eqn:Hv.
  - destruct (fits_C_long dt v) eqn:Hfits.
    + destruct (translate dt mapping ids) as [e'|vs]; [|done].
      intros [= ->]. destruct IH as (pre & r & post & -> & Hpre & Hr); [done|].
      exists (x :: pre), r, post. split; [done|]. split; [|done].
      intros y [->|Hy]%elem_of_cons; [by exists v|by apply Hpre].
    + intros [= <-]. exists [], x, ids. split; [done|]. split.
      * intros y Hy. by apply elem_of_nil in Hy.
      * right. by exists v.
  - intros [= <-]. exists [], x, ids. split; [done|]. split.
    + intros y Hy. by apply elem_of_nil in Hy.
    + by left.
Qed.

Lemma translate_first_unmapped dt pre r post :
  (forall x, x ∈ pre -> storable dt mapping x) ->
  mapping !! r = None ->
  translate dt mapping (pre ++ r :: post) = inl (ArgumentError_NoConversion r).
Proof.
  intros Hpre Hr. induction pre as [|x pre IH]; simpl; [by rewrite Hr|].
  destruct (Hpre x) as (v & -> & ->); [by left|].
  rewrite IH; [done|]. intros y Hy. apply Hpre. by right.
Qed.

(** What a call returns or raises. *)
Lemma apply_mapping_result label_image st :
  (apply_mapping label_image mapping st).2
  = match translate (dtype_of label_image) mapping (elems label_image st) with
    | inl e => inl e
    | inr vs =>
        inr (mk_mask (shape label_image) ((fun x : Z => negb (x =? 0)) <$> vs))
    end.
Proof.
  unfold apply_mapping, array.
  set (b := fresh (dom st)).
  set (st1 := <[b := elems label_image st]> st).
  set (copy := mk_ndarray b (shape label_image) (dtype_of label_image)
                 (fortran label_image)).
  assert (Hcopy : elems copy st1 = elems label_image st).
  { unfold elems, copy, st1. simpl. by rewrite lookup_total_insert_eq. }
  destruct (ravel copy st1) as [rav st2] eqn:Hravel.
  assert (Hrav : elems rav st2 = [] ++ elems label_image st
                 /\ dtype_of rav = dtype_of label_image).
  { unfold ravel in Hravel. destruct (fortran copy).
    - injection Hravel as <- <-. split; [|done].
      unfold elems at 1. simpl. by rewrite lookup_total_insert_eq.
    - injection Hravel as <- <-. by split. }
  destruct Hrav as [Hrav Hdt].
  pose proof (apply_mapping_loop_seq rav [] _ st2 Hrav) as Hloop.
  rewrite Hrav, Hdt in *. simpl in *.
  destruct (apply_mapping_loop mapping rav
              (seq 0 (length (elems label_image st))) st2) as [st3 r] eqn:Hrun.
  destruct (translate (dtype_of label_image) mapping (elems label_image st))
    as [e|vs].
  - simpl in Hloop. by rewrite Hloop.
  - destruct Hloop as (st' & [= -> ->] & Helems). simpl.
    unfold astype_bool, reshape. simpl. by rewrite <- Helems.
Qed.

(** A call leaves every buffer of its initial store as it was. *)
Lemma apply_mapping_frame label_image st l :
  l ∈ dom st -> (apply_mapping label_image mapping st).1 !! l = st !! l.
Proof.
  intros Hl. unfold apply_mapping, array.
  set (b := fresh (dom st)).
  set (st1 := <[b := elems label_image st]> st).
  set (copy := mk_ndarray b (shape label_image) (dtype_of label_image)
                 (fortran label_image)).
  assert (Hb : l ≠ b).
  { intros ->. by apply (is_fresh (dom st)). }
  assert (Hst1 : st1 !! l = st !! l).
  { unfold st1. by rewrite lookup_insert_ne. }
  destruct (ravel copy st1) as [rav st2] eqn:Hravel.
  assert (Hrav : l ≠ buf rav /\ st2 !! l = st !! l).
  { unfold ravel in Hravel. destruct (fortran copy).
    - injection Hravel as <- <-. simpl.
      assert (l ≠ fresh (dom st1)) as Hne.
      { intros ->. apply (is_fresh (dom st1)). apply elem_of_dom.
        rewrite Hst1. by apply elem_of_dom. }
      split; [done|]. by rewrite lookup_insert_ne.
    - injection Hravel as <- <-. by split. }
  destruct Hrav as [Hne Hst2].
  pose proof (apply_mapping_loop_frame rav
                (seq 0 (length (elems rav st2))) st2 l Hne) as Hf.
  destruct (apply_mapping_loop mapping rav
              (seq 0 (length (elems rav st2))) st2) as [st3 r].
  simpl in Hf. transitivity (st2 !! l); [by destruct r|done].
Qed.

End apply_mapping_facts.

(** C1, as the code has it: for every label image and every mapping that holds
    every region id of the image with a value that fits the C long,
    [apply_mapping] returns a mask of the shape of the image, and an element
    whose region id is mapped to a value other than the two markers is not
    always false: it is true if and only if that value, cast to the element
    type of the image, is not zero. What the mask holds for the two markers
    themselves is not stated here. *)
Theorem apply_mapping_mask_nonzero (SOURCE SINK : Z) (label_image : ndarray)
    (mapping : gmap Z Z) (st : gmap positive (list Z)) :
  (forall r, r ∈ elems label_image st ->
     storable (dtype_of label_image) mapping r) ->
  exists st' m,
    apply_mapping label_image mapping st = (st', inr m)
    /\ mask_shape m = shape label_image
    /\ length (mask_data m) = length (elems label_image st)
    /\ forall (i : nat) r v,
         elems label_image st !! i = Some r ->
         mapping !! r = Some v ->
         v ≠ SOURCE -> v ≠ SINK ->
         mask_data m !! i
         = Some (negb (cast (dtype_of label_image) v =? 0)).
Proof.
  intros Hall.
  destruct (translate_total mapping _ _ Hall) as [vs Hvs].
  pose proof (apply_mapping_result mapping label_image st) as Hres.
  rewrite Hvs in Hres.
  destruct (apply_mapping label_image mapping st) as [st' res]. simpl in Hres.
  subst res. eexists _, _. split; [done|]. simpl.
  apply translate_inr in Hvs.
  split; [done|]. split.
  - rewrite length_fmap. symmetry. by eapply Forall2_length.
  - intros i r v Hi Hv _ _.
    destruct (Forall2_lookup_l _ _ _ _ _ Hvs Hi) as (x & Hx & v' & Hv' & _ & ->).
    rewrite list_lookup_fmap, Hx. simpl. congruence.
Qed.

Lemma apply_mapping_mask_nonzero_witness :
  exists st' m,
    apply_mapping example_image_uint8 mapping_256 example_store = (st', inr m)
    /\ mask_shape m = shape example_image_uint8
    /\ length (mask_data m) = length (elems example_image_uint8 example_store)
    /\ forall (i : nat) r v,
         elems example_image_uint8 example_store !! i = Some r ->
         mapping_256 !! r = Some v ->
         v ≠ spec_SOURCE -> v ≠ spec_SINK ->
         mask_data m !! i
         = Some (negb (cast (dtype_of example_image_uint8) v =? 0)).
Proof.
  apply (apply_mapping_mask_nonzero spec_SOURCE spec_SINK example_image_uint8
           mapping_256 example_store).
  refine (proj1 (Forall_forall _ _) _).
  repeat (constructor; [eexists; split; reflexivity|]). constructor.
Defined.

(** C1, as the spec states it, fails: on the image [[1,2],[3,1]] and the mapping
    [{1: 0, 2: 1, 3: 2}] the mask is [[False,True],[True,False]], so two
    different mapped values give true and no value of the source marker makes
    "true iff the mapped value equals SOURCE" hold. *)
Lemma apply_mapping_mask_not_source_test :
  ~ exists SOURCE : Z,
      mask_tests_source SOURCE example_image mapping_012 example_store.
Proof.
  intros [SOURCE H].
  assert (Hall : forall r, r ∈ elems example_image example_store ->
                           is_Some (mapping_012 !! r)).
  { apply Forall_forall.
    repeat (constructor; [by vm_compute; eexists|]). constructor. }
  destruct (apply_mapping example_image mapping_012 example_store)
    as [st' res] eqn:Hrun.
  assert (Hres : res = inr (mk_mask [2; 2]%nat [false; true; true; false])).
  { assert (Heq : (apply_mapping example_image mapping_012 example_store).2 = res)
      by (by rewrite Hrun).
    rewrite <- Heq. by vm_compute. }
  subst res.
  pose proof (H Hall _ _ eq_refl 1%nat 2 1 eq_refl eq_refl) as H1.
  pose proof (H Hall _ _ eq_refl 2%nat 3 2 eq_refl eq_refl) as H2.
  simpl in H1, H2.
  injection H1 as H1. injection H2 as H2.
  symmetry in H1, H2.
  apply bool_decide_eq_true_1 in H1, H2. lia.
Qed.

(** C3, as the code has it: when [r] is the first region id of the flattened
    image that the mapping does not hold, and the values mapped to the ids
    before it fit the C long, [apply_mapping] raises the [ArgumentError] that
    names [r] and returns no mask. *)
Theorem apply_mapping_first_unmapped (label_image : ndarray)
    (mapping : gmap Z Z) (st : gmap positive (list Z)) (pre : list Z) (r : Z)
    (post : list Z) :
  elems label_image st = pre ++ r :: post ->
  (forall x, x ∈ pre -> storable (dtype_of label_image) mapping x) ->
  mapping !! r = None ->
  (apply_mapping label_image mapping st).2 = inl (ArgumentError_NoConversion r).
Proof.
  intros Hsplit Hpre Hr. rewrite apply_mapping_result, Hsplit.
  by rewrite (translate_first_unmapped mapping _ pre r post Hpre Hr).
Qed.

Lemma apply_mapping_first_unmapped_witness :
  (apply_mapping example_image mapping_without_2 example_store).2
  = inl (ArgumentError_NoConversion 2).
Proof.
  apply (apply_mapping_first_unmapped example_image mapping_without_2
           example_store [1] 2 [3; 1]).
  - reflexivity.
  - intros x ->%list_elem_of_singleton. by exists 1.
  - reflexivity.
Defined.

(** C3, as the spec states it, fails: on the image [[1,2],[3,1]] of 64-bit
    integers and the mapping [{1: 2**63, 3: 1}], which lacks the region id 2,
    the first assignment raises [OverflowError] before the id 2 is met. *)
Lemma apply_mapping_overflow_before_unmapped :
  ~ first_unmapped_raised example_image mapping_overflow example_store.
Proof.
  intros H. destruct H as (pre & r & post & _ & _ & _ & Hres).
  - exists 2. split; [|reflexivity].
    apply list_elem_of_lookup. by exists 1%nat.
  - rewrite apply_mapping_result in Hres. vm_compute in Hres. discriminate Hres.
Qed.

(** C6, where the code departs from it: with the marker values the spec
    gives (SOURCE=0, SINK=1), on the image [[1,2],[3,1]] the mapping that
    sends every region id to SOURCE yields the all-false mask, and the mapping
    that sends every region id to SINK yields the all-true mask. *)
Lemma apply_mapping_uniform_at_spec_markers :
  (apply_mapping example_image (mapping_to spec_SOURCE) example_store).2
  = inr (constant_mask example_image example_store false)
  /\ (apply_mapping example_image (mapping_to spec_SINK) example_store).2
     = inr (constant_mask example_image example_store true).
Proof. rewrite !apply_mapping_result. split; by vm_compute. Qed.

(** C10: [apply_mapping] never writes to the caller's label image. The call
    works on a new copy, so every buffer of the store it is called in, the
    caller's among them, holds the same elements after the call, whether the
    call returns a mask or raises. *)
Theorem apply_mapping_preserves_store (label_image : ndarray)
    (mapping : gmap Z Z) (st : gmap positive (list Z)) (l : positive)
    (data : list Z) :
  st !! l = Some data ->
  (apply_mapping label_image mapping st).1 !! l = Some data.
Proof.
  intros Hl. rewrite apply_mapping_frame; [done|].
  apply elem_of_dom. by eexists.
Qed.

Lemma apply_mapping_preserves_store_witness :
  (apply_mapping example_image mapping_012 example_store).1 !! buf example_image
  = Some [1; 2; 3; 1]
  /\ (apply_mapping example_image mapping_without_2 example_store).1
     !! buf example_image
     = Some [1; 2; 3; 1].
Proof.
  split.
  - apply (apply_mapping_preserves_store example_image mapping_012
             example_store 1%positive [1; 2; 3; 1]).
    reflexivity.
  - apply (apply_mapping_preserves_store example_image mapping_without_2
             example_store 1%positive [1; 2; 3; 1]).
    reflexivity.
Defined.

(** ** Characters, numerals and [int] *)

(** A character of a printed integer: a digit or the minus sign. *)
Lemma numeral_char_facts c :
  isdigit c = true \/ c = "-"%char ->
  isspace c = false /\ c ≠ "="%char /\ c ≠ LF /\ c ≠ "#"%char /\ c ≠ "+"%char.
Proof.
  intros [H| ->]; [|by vm_compute].
  destruct c as [[] [] [] [] [] [] [] []]; vm_compute in H; try discriminate H;
    by vm_compute.
Qed.

Lemma isdigit_not_minus c : isdigit c = true -> c ≠ "-"%char.
Proof. intros H ->. by vm_compute in H. Qed.

Lemma digit_value_nonneg c : isdigit c = true -> 0 <= digit_value c.
Proof.
  unfold isdigit, digit_value. intros [H _]%andb_true_iff.
  apply Nat.leb_le in H. lia.
Qed.

Lemma lstrip_id s :
  Forall (fun c => isspace c = false) s -> lstrip s = s.
Proof. destruct 1 as [|c s Hc _]; simpl; [done|]. by rewrite Hc. Qed.

Lemma strip_id s :
  Forall (fun c => isspace c = false) s -> strip s = s.
Proof.
  intros H. unfold strip, rstrip. rewrite (lstrip_id s H).
  rewrite lstrip_id by (by apply Forall_reverse).
  apply reverse_involutive.
Qed.

Lemma lstrip_spaces ws s :
  forallb isspace ws = true -> lstrip (ws ++ s) = lstrip s.
Proof.
  induction ws as [|c ws IH]; simpl; [done|].
  intros [Hc Hws]%andb_true_iff. rewrite Hc. by apply IH.
Qed.

Lemma lstrip_snoc s c :
  isspace c = false -> lstrip (s ++ [c]) = lstrip s ++ [c].
Proof.
  intros Hc. induction s as [|a s IH]; simpl; [by rewrite Hc|].
  by destruct (isspace a).
Qed.

Lemma rstrip_cons c s :
  isspace c = false -> rstrip (c :: s) = c :: rstrip s.
Proof.
  intros Hc. unfold rstrip. rewrite reverse_cons, lstrip_snoc by done.
  by rewrite reverse_app.
Qed.

Lemma uint_chars_digits d : Forall (fun c => isdigit c = true) (uint_chars d).
Proof. induction d; constructor; done. Qed.

Lemma uint_chars_nonnil d : d ≠ Decimal.Nil -> uint_chars d ≠ [].
Proof. by destruct d. Qed.

Lemma digits_value_digit c s acc :
  isdigit c = true ->
  digits_value acc (c :: s) = digits_value (10 * acc + digit_value c) s.
Proof. intros Hc. simpl. by rewrite Hc. Qed.

Lemma digits_value_uint d acc :
  digits_value acc (uint_chars d) = Some (uint_value acc d).
Proof.
  revert acc. induction d; intros acc; [done|..];
    unfold uint_chars; simpl NilEmpty.string_of_uint;
    simpl list_ascii_of_string; fold (uint_chars d);
    (rewrite digits_value_digit by done); apply IHd.
Qed.

Lemma uint_value_acc d p :
  uint_value (Z.pos p) d = Z.pos (Pos.of_uint_acc d p).
Proof.
  revert p. induction d; intros p; simpl; [done|..]; rewrite <- IHd; f_equal; lia.
Qed.

Lemma uint_value_of_uint d : uint_value 0 d = Z.of_N (Pos.of_uint d).
Proof.
  induction d; simpl; try done; by rewrite <- uint_value_acc.
Qed.

Lemma uint_value_to_uint p : uint_value 0 (Pos.to_uint p) = Z.pos p.
Proof. by rewrite uint_value_of_uint, Unsigned.of_to. Qed.

(** A printed integer: an optional minus sign, then the digits of its
    absolute value. *)
Lemma format_int_shape n :
  exists d,
    d ≠ Decimal.Nil /\ uint_value 0 d = Z.abs n
    /\ format_int n = (if n <? 0 then ["-"%char] else []) ++ uint_chars d.
Proof.
  destruct n as [|p|p].
  - by exists (Decimal.D0 Decimal.Nil).
  - exists (Pos.to_uint p). split; [apply Unsigned.to_uint_nonnil|].
    split; [apply uint_value_to_uint|].
    unfold format_int. simpl.
    pose proof (Unsigned.to_uint_nonnil p). by destruct (Pos.to_uint p).
  - exists (Pos.to_uint p). split; [apply Unsigned.to_uint_nonnil|].
    split; [apply uint_value_to_uint|].
    unfold format_int. simpl.
    pose proof (Unsigned.to_uint_nonnil p). by destruct (Pos.to_uint p).
Qed.

Lemma format_int_chars n :
  Forall (fun c => isdigit c = true \/ c = "-"%char) (format_int n).
Proof.
  destruct (format_int_shape n) as (d & _ & _ & ->).
  apply Forall_app. split.
  - destruct (n <? 0); [apply Forall_singleton; by right | constructor].
  - eapply Forall_impl; [apply uint_chars_digits|]. by left.
Qed.

Lemma format_int_no_space n :
  Forall (fun c => isspace c = false) (format_int n).
Proof.
  eapply Forall_impl; [apply format_int_chars|].
  intros c Hc. by apply numeral_char_facts.
Qed.

(** [int] reads a printed integer back. *)
Lemma int_format_int n : int (format_int n) = inr n.
Proof.
  unfold int. rewrite strip_id by apply format_int_no_space.
  destruct (format_int_shape n) as (d & Hd & Hval & Heq). rewrite Heq.
  pose proof (uint_chars_nonnil d Hd) as Hne.
  pose proof (uint_chars_digits d) as Hdig.
  pose proof (digits_value_uint d 0) as Hdv. rewrite Hval in Hdv.
  destruct (Z.ltb_spec n 0) as [Hn|Hn]; simpl.
  - destruct (uint_chars d) as [|c cs]; [done|]. rewrite Hdv.
    f_equal. lia.
  - destruct (uint_chars d) as [|c cs] eqn:Hcs; [done|].
    apply Forall_cons in Hdig as [Hc _].
    destruct (numeral_char_facts c (or_introl Hc)) as (_ & _ & _ & _ & Hplus).
    pose proof (isdigit_not_minus c Hc) as Hminus.
    destruct (Ascii.eqb_spec c "-"); [done|].
    destruct (Ascii.eqb_spec c "+"); [done|].
    rewrite Hdv. f_equal. lia.
Qed.

(** ** The result parser *)

Lemma split_nonempty sep s : split sep s ≠ [].
Proof.
  destruct s as [|c s]; simpl; [done|].
  destruct (Ascii.eqb c sep); [done|]. by destruct (split sep s).
Qed.

Lemma subscript_first_line output :
  subscript (split LF output) 0 = inr (first_line output).
Proof.
  unfold subscript, first_line.
  pose proof (split_nonempty LF output). by destruct (split LF output).
Qed.

Lemma int_inl s e : int s = inl e -> e = ValueError s.
Proof.
  unfold int.
  destruct (match strip s with
            | [] => (false, strip s)
            | c :: r => _
            end) as [negative d].
  destruct d; [congruence|]. destruct (digits_value 0 _); congruence.
Qed.

Lemma int_fails_inl s : int_fails s = true -> int s = inl (ValueError s).
Proof.
  unfold int_fails. destruct (int s) as [e|z] eqn:H; [|done].
  intros _. f_equal. by apply int_inl.
Qed.

Lemma int_fails_false s : int_fails s = false -> exists z, int s = inr z.
Proof. unfold int_fails. destruct (int s); [done|by eexists]. Qed.

(** The three ways a turn of the loop goes. *)
Lemma parse_line_skip nodes line :
  is_record line = false -> parse_line nodes line = inr nodes.
Proof.
  unfold is_record, parse_line. intros H%negb_false_iff. by rewrite H.
Qed.

Lemma record_of_skip line : is_record line = false -> record_of line = None.
Proof. unfold record_of. by intros ->. Qed.

Lemma parse_line_record nodes line :
  is_record line = true -> non_numeric line = false ->
  exists k v,
    record_of line = Some (k, v)
    /\ parse_line nodes line = inr (<[k := v]> nodes).
Proof.
  unfold non_numeric, record_of, parse_line. intros Hrec. rewrite Hrec. simpl.
  intros [Hv Hk]%orb_false_iff.
  apply int_fails_false in Hv as [v Hv]. apply int_fails_false in Hk as [k Hk].
  unfold is_record in Hrec. apply negb_true_iff in Hrec.
  rewrite Hrec, Hv, Hk. simpl. by exists k, v.
Qed.

Lemma parse_line_non_numeric nodes line :
  non_numeric line = true ->
  exists field,
    (field = value_field (strip line) \/ field = key_field (strip line))
    /\ int_fails field = true
    /\ parse_line nodes line = inl (ValueError field).
Proof.
  unfold non_numeric, parse_line, is_record.
  intros [Hrec Hfail]%andb_true_iff. apply negb_true_iff in Hrec. rewrite Hrec.
  destruct (int_fails (value_field (strip line))) eqn:Hv.
  - exists (value_field (strip line)). split; [by left|]. split; [done|].
    by rewrite (int_fails_inl _ Hv).
  - simpl in Hfail. exists (key_field (strip line)).
    split; [by right|]. split; [done|].
    apply int_fails_false in Hv as [v Hv].
    by rewrite Hv, (int_fails_inl _ Hfail).
Qed.

Lemma non_numeric_is_record line : non_numeric line = true -> is_record line = true.
Proof. unfold non_numeric. by intros [? _]%andb_true_iff. Qed.

Lemma last_code_cons k line lines :
  last_code k (line :: lines)
  = match last_code k lines with
    | Some v => Some v
    | None =>
        match record_of line with
        | Some (k', v) => if decide (k' = k) then Some v else None
        | None => None
        end
    end.
Proof.
  unfold last_code. simpl.
  destruct (record_of line) as [[k' v]|]; simpl; [|by destruct (last _)].
  rewrite filter_cons. simpl.
  destruct (decide (k' = k)); [|by destruct (last _)].
  rewrite last_cons. by destruct (last _).
Qed.

(** The loop accepts lines none of which is non-numeric, and the dictionary
    it builds holds for each node id the code of its last record line. *)
Lemma parse_lines_accepts lines nodes :
  existsb non_numeric lines = false ->
  exists nodes',
    parse_lines nodes lines = inr nodes'
    /\ forall k, nodes' !! k = match last_code k lines with
                               | Some v => Some v
                               | None => nodes !! k
                               end.
Proof.
  revert nodes. induction lines as [|line lines IH]; intros nodes; simpl.
  - intros _. by exists nodes.
  - intros [Hline Hrest]%orb_false_iff.
    destruct (is_record line) eqn:Hrec.
    + destruct (parse_line_record nodes line Hrec Hline) as (k & v & Hrecord & ->).
      simpl. destruct (IH (<[k := v]> nodes) Hrest) as (nodes' & -> & Hlookup).
      exists nodes'. split; [done|]. intros k0.
      rewrite Hlookup, last_code_cons, Hrecord.
      destruct (last_code k0 lines); [done|].
      destruct (decide (k = k0)) as [->|Hne].
      * by rewrite lookup_insert_eq.
      * by rewrite lookup_insert_ne.
    + rewrite (parse_line_skip nodes line Hrec). simpl.
      destruct (IH nodes Hrest) as (nodes' & -> & Hlookup).
      exists nodes'. split; [done|]. intros k0.
      rewrite Hlookup, last_code_cons, (record_of_skip line Hrec).
      by destruct (last_code k0 lines).
Qed.

(** The loop stops at the first non-numeric line. *)
Lemma parse_lines_rejects lines nodes :
  existsb non_numeric lines = true ->
  exists line field,
    line ∈ lines /\ is_record line = true
    /\ (field = value_field (strip line) \/ field = key_field (strip line))
    /\ int_fails field = true
    /\ parse_lines nodes lines = inl (ValueError field).
Proof.
  revert nodes. induction lines as [|line lines IH]; intros nodes; simpl; [done|].
  destruct (non_numeric line) eqn:Hline; simpl.
  - intros _.
    destruct (parse_line_non_numeric nodes line Hline) as (field & Hf & Hfail & ->).
    exists line, field. split; [by left|].
    split; [by apply non_numeric_is_record|]. done.
  - intros Hrest.
    assert (exists nodes', parse_line nodes line = inr nodes') as [nodes' ->].
    { destruct (is_record line) eqn:Hrec.
      - destruct (parse_line_record nodes line Hrec Hline) as (k & v & _ & ->).
        by eexists.
      - rewrite (parse_line_skip nodes line Hrec). by eexists. }
    simpl. destruct (IH nodes' Hrest) as (l & field & Hin & Hrec & Hf & Hfail & ->).
    exists l, field. split; [by right|]. done.
Qed.

Section bk_mfmc_parse_facts.

Context (SOURCE SINK : Z).

(** What a call returns or raises does not involve the logger. *)
Lemma bk_mfmc_parse_result output logger :
  (bk_mfmc_parse SOURCE SINK output logger).2
  = match bk_mfmc_parse_body output with
    | inr r => inr r
    | inl (ValueError literal) =>
        inl (ArgumentError_Maleformed (ValueError literal))
    | inl e => inl e
    end.
Proof.
  unfold bk_mfmc_parse.
  destruct (bk_mfmc_parse_body output) as [[]|[flow nodes]]; done.
Qed.

Lemma bk_mfmc_parse_body_accepts output :
  malformed output = false ->
  exists flow nodes,
    int (value_field (first_line output)) = inr flow
    /\ bk_mfmc_parse_body output = inr (flow, nodes)
    /\ forall k, nodes !! k = last_code k (later_lines output).
Proof.
  unfold malformed. intros [Hflow Hlines]%orb_false_iff.
  apply int_fails_false in Hflow as [flow Hflow].
  destruct (parse_lines_accepts _ ∅ Hlines) as (nodes & Hnodes & Hlookup).
  exists flow, nodes. split; [done|]. split.
  - unfold bk_mfmc_parse_body. rewrite subscript_first_line. simpl.
    rewrite Hflow. simpl. fold (later_lines output). by rewrite Hnodes.
  - intros k. rewrite Hlookup, lookup_empty.
    by destruct (last_code k (later_lines output)).
Qed.

Lemma bk_mfmc_parse_body_rejects output :
  malformed output = true ->
  exists field,
    parsed_field output field /\ int_fails field = true
    /\ bk_mfmc_parse_body output = inl (ValueError field).
Proof.
  unfold malformed, bk_mfmc_parse_body. rewrite subscript_first_line. simpl.
  destruct (int_fails (value_field (first_line output))) eqn:Hflow; simpl.
  - intros _. exists (value_field (first_line output)).
    split; [by left|]. split; [done|]. by rewrite (int_fails_inl _ Hflow).
  - intros Hlines. apply int_fails_false in Hflow as [flow ->]. simpl.
    fold (later_lines output).
    destruct (parse_lines_rejects _ ∅ Hlines)
      as (line & field & Hin & Hrec & Hf & Hfail & ->).
    exists field. split; [|done]. right. by exists line.
Qed.

End bk_mfmc_parse_facts.

Lemma elem_of_lstrip c s : c ∈ lstrip s -> c ∈ s.
Proof.
  induction s as [|a s IH]; simpl; [done|].
  destruct (isspace a); [|done]. intros H. right. by apply IH.
Qed.

Lemma elem_of_strip c s : c ∈ strip s -> c ∈ s.
Proof.
  unfold strip, rstrip. intros H.
  rewrite elem_of_reverse in H. apply elem_of_lstrip in H.
  rewrite elem_of_reverse in H. by apply elem_of_lstrip.
Qed.

Lemma has_minus_elem_of s : "-"%char ∈ s -> has_minus s = true.
Proof.
  intros H. apply existsb_exists. exists "-"%char.
  split; [by apply list_elem_of_In|done].
Qed.

Lemma digits_value_nonneg s acc n :
  0 <= acc -> digits_value acc s = Some n -> 0 <= n.
Proof.
  revert acc. induction s as [|c s IH]; intros acc Hacc; simpl.
  - by intros [= <-].
  - destruct (isdigit c) eqn:Hc; [|done]. apply IH.
    pose proof (digit_value_nonneg c Hc). lia.
Qed.

(** A numeral without a minus sign denotes no negative number. *)
Lemma int_nonneg s z : int s = inr z -> has_minus s = false -> 0 <= z.
Proof.
  unfold int. intros Hint Hminus.
  destruct (strip s) as [|c r] eqn:Hstrip; [done|].
  destruct (Ascii.eqb_spec c "-") as [->|Hc].
  - assert ("-"%char ∈ s) as Hin.
    { apply elem_of_strip. rewrite Hstrip. by left. }
    apply has_minus_elem_of in Hin. congruence.
  - destruct (Ascii.eqb c "+"); cbv beta match zeta in Hint.
    + destruct r as [|c' r']; [done|].
      destruct (digits_value 0 (c' :: r')) as [n|] eqn:Hn; [|done].
      injection Hint as <-. by eapply digits_value_nonneg; [|apply Hn].
    + destruct (digits_value 0 (c :: r)) as [n|] eqn:Hn; [|done].
      injection Hint as <-. by eapply digits_value_nonneg; [|apply Hn].
Qed.

Lemma record_of_Some line k v :
  record_of line = Some (k, v) ->
  is_record line = true
  /\ int (key_field (strip line)) = inr k
  /\ int (value_field (strip line)) = inr v.
Proof.
  unfold record_of. destruct (is_record line); [|done].
  destruct (int (key_field (strip line))) as [|k']; [done|].
  destruct (int (value_field (strip line))) as [|v']; [done|].
  by intros [= -> ->].
Qed.

Lemma last_code_Some k v lines :
  last_code k lines = Some v ->
  exists line, line ∈ lines /\ record_of line = Some (k, v).
Proof.
  unfold last_code. intros H.
  destruct (last _) as [[k' v']|] eqn:Hlast; [|done].
  simpl in H. injection H as ->.
  apply last_Some_elem_of in Hlast.
  apply list_elem_of_filter in Hlast as [Hk Hin]. simpl in Hk. subst k'.
  apply list_elem_of_omap in Hin as (line & Hin & Hrec). by exists line.
Qed.

(** C4: for every output with a line that is not numeric where a number is
    read (the flow of line 0, or a field of a later line that is neither blank
    nor a comment), [bk_mfmc_parse] raises the [ArgumentError] built from the
    [ValueError] of [int()]; the error carries the text [int()] refused, which
    is a field of the output, and no flow or mapping is returned. *)
Theorem bk_mfmc_parse_non_numeric (SOURCE SINK : Z) (output : pystr)
    (logger : Logger) :
  malformed output = true ->
  exists field,
    parsed_field output field
    /\ int field = inl (ValueError field)
    /\ (bk_mfmc_parse SOURCE SINK output logger).2
       = inl (ArgumentError_Maleformed (ValueError field)).
Proof.
  intros Hbad.
  destruct (bk_mfmc_parse_body_rejects output Hbad) as (field & Hf & Hfail & Hbody).
  exists field. split; [done|]. split; [by apply int_fails_inl|].
  by rewrite bk_mfmc_parse_result, Hbody.
Qed.

Lemma bk_mfmc_parse_non_numeric_witness :
  exists field,
    parsed_field output_abc field
    /\ int field = inl (ValueError field)
    /\ (bk_mfmc_parse spec_SOURCE spec_SINK output_abc []).2
       = inl (ArgumentError_Maleformed (ValueError field)).
Proof.
  apply (bk_mfmc_parse_non_numeric spec_SOURCE spec_SINK output_abc []).
  reflexivity.
Defined.

(** C5, where the code departs from it: a line without ['='] is read all the
    same. [find] returns [-1], so a later line ["123"] is cut into the node id
    ["12"] and the code ["123"], and a first line ["12"] is the flow 12. *)
Lemma bk_mfmc_parse_line_without_equals (SOURCE SINK : Z) (logger : Logger) :
  (bk_mfmc_parse SOURCE SINK output_no_equals logger).2
  = inr (1, {[ 12 := 123 ]})
  /\ (bk_mfmc_parse SOURCE SINK output_bare_number logger).2 = inr (12, ∅).
Proof. rewrite !bk_mfmc_parse_result. split; by vm_compute. Qed.

(** C7, as the code has it: for every output the parser accepts, if the flow
    field and the node-id fields hold no minus sign and every code field
    denotes the source or the sink marker, then the flow is non-negative,
    every key of the mapping is non-negative and every value is one of the
    two markers. The parser itself checks neither sign nor marker. *)
Theorem bk_mfmc_parse_range (SOURCE SINK : Z) (output : pystr)
    (logger : Logger) (flow : Z) (nodes : gmap Z Z) :
  (bk_mfmc_parse SOURCE SINK output logger).2 = inr (flow, nodes) ->
  has_minus (value_field (first_line output)) = false ->
  (forall line, line ∈ later_lines output -> is_record line = true ->
     has_minus (key_field (strip line)) = false
     /\ (int (value_field (strip line)) = inr SOURCE
         \/ int (value_field (strip line)) = inr SINK)) ->
  0 <= flow
  /\ forall k v, nodes !! k = Some v -> 0 <= k /\ (v = SOURCE \/ v = SINK).
Proof.
  intros Hres Hflow Hlines. rewrite bk_mfmc_parse_result in Hres.
  destruct (malformed output) eqn:Hbad.
  - destruct (bk_mfmc_parse_body_rejects output Hbad) as (f & _ & _ & Hbody).
    by rewrite Hbody in Hres.
  - destruct (bk_mfmc_parse_body_accepts output Hbad)
      as (flow' & nodes' & Hint & Hbody & Hlookup).
    rewrite Hbody in Hres. injection Hres as -> ->. split.
    + by eapply int_nonneg.
    + intros k v Hkv. rewrite Hlookup in Hkv.
      apply last_code_Some in Hkv as (line & Hin & Hrec).
      apply record_of_Some in Hrec as (Hrec & Hk & Hv).
      destruct (Hlines line Hin Hrec) as [Hminus Hmarker]. split.
      * by eapply int_nonneg.
      * destruct Hmarker; [left|right]; congruence.
Qed.

Lemma bk_mfmc_parse_range_witness :
  0 <= 12
  /\ forall k v, ({[ 1 := 0; 2 := 1; 3 := 0 ]} : gmap Z Z) !! k = Some v ->
       0 <= k /\ (v = spec_SOURCE \/ v = spec_SINK).
Proof.
  apply (bk_mfmc_parse_range spec_SOURCE spec_SINK example_output [] 12
           {[ 1 := 0; 2 := 1; 3 := 0 ]}).
  - reflexivity.
  - reflexivity.
  - refine (proj1 (Forall_forall (fun line => is_record line = true -> _) _) _).
    repeat (constructor;
            [intros Hrec; first [discriminate Hrec
                                | split; [reflexivity|]; first [by left|by right]]|]).
    constructor.
Defined.

(** C7, as the spec states it, fails: ["flow=-3\n-1=7"] is accepted with the
    flow -3 and the mapping [{-1: 7}], a negative flow and a negative key,
    whatever the two markers are. *)
Lemma bk_mfmc_parse_range_unchecked :
  ~ exists SOURCE SINK : Z, results_in_range SOURCE SINK output_negative.
Proof.
  intros (SOURCE & SINK & H).
  destruct (H [] (-3) {[ -1 := 7 ]}) as [Hflow _]; [|lia].
  rewrite bk_mfmc_parse_result. by vm_compute.
Qed.

(** C9: what [bk_mfmc_parse] returns or raises for a text does not depend on
    the state of the logger, the only state a call touches; so a second call
    on the same text, made after the first, gives the same flow and the same
    mapping (or the same error). *)
Theorem bk_mfmc_parse_deterministic (SOURCE SINK : Z) (output : pystr)
    (logger logger' : Logger) :
  (bk_mfmc_parse SOURCE SINK output logger).2
  = (bk_mfmc_parse SOURCE SINK output logger').2
  /\ (bk_mfmc_parse SOURCE SINK output
        (bk_mfmc_parse SOURCE SINK output logger).1).2
     = (bk_mfmc_parse SOURCE SINK output logger).2.
Proof. by rewrite !bk_mfmc_parse_result. Qed.

(** ** Printed outputs *)

Lemma split_no_sep sep l :
  Forall (fun c => c ≠ sep) l -> split sep l = [l].
Proof.
  induction 1 as [|c l Hc _ IH]; simpl; [done|].
  destruct (Ascii.eqb_spec c sep); [done|]. by rewrite IH.
Qed.

Lemma split_app_sep sep l rest :
  Forall (fun c => c ≠ sep) l ->
  split sep (l ++ sep :: rest) = l :: split sep rest.
Proof.
  induction 1 as [|c l Hc _ IH]; simpl.
  - by rewrite Ascii.eqb_refl.
  - destruct (Ascii.eqb_spec c sep); [done|]. by rewrite IH.
Qed.

Lemma split_lines l0 lines :
  Forall (fun c => c ≠ LF) l0 ->
  Forall (Forall (fun c => c ≠ LF)) lines ->
  split LF (l0 ++ concat ((fun l => LF :: l) <$> lines)) = l0 :: lines.
Proof.
  intros Hl0 Hlines. revert l0 Hl0.
  induction Hlines as [|l lines Hl _ IH]; intros l0 Hl0; simpl.
  - rewrite app_nil_r. by apply split_no_sep.
  - rewrite split_app_sep by done. f_equal. by apply IH.
Qed.

Lemma find_from_app c pre post i :
  Forall (fun a => a ≠ c) pre ->
  find_from c (pre ++ c :: post) i = i + Z.of_nat (length pre).
Proof.
  intros Hpre. revert i.
  induction Hpre as [|a pre Ha _ IH]; intros i; simpl.
  - rewrite Ascii.eqb_refl. lia.
  - destruct (Ascii.eqb_spec a c); [done|]. rewrite IH. lia.
Qed.

(** The two fields of a line with an ['='] after a prefix without one. *)
Lemma fields_of_record pre post :
  Forall (fun a => a ≠ "="%char) pre ->
  key_field (pre ++ "="%char :: post) = pre
  /\ value_field (pre ++ "="%char :: post) = post.
Proof.
  intros Hpre. unfold key_field, value_field, find, slice_to, slice_from.
  rewrite find_from_app by done.
  rewrite length_app. simpl length.
  assert (Hto : slice_bound (Z.of_nat (length pre + S (length post)))
                  (0 + Z.of_nat (length pre)) = length pre).
  { unfold slice_bound.
    destruct (Z.ltb_spec (0 + Z.of_nat (length pre)) 0); lia. }
  assert (Hfrom : slice_bound (Z.of_nat (length pre + S (length post)))
                    (0 + Z.of_nat (length pre) + 1) = S (length pre)).
  { unfold slice_bound.
    destruct (Z.ltb_spec (0 + Z.of_nat (length pre) + 1) 0); lia. }
  rewrite Hto, Hfrom. split.
  - by rewrite take_app_length.
  - change (pre ++ "="%char :: post) with (pre ++ ["="%char] ++ post).
    rewrite app_assoc.
    replace (S (length pre)) with (length (pre ++ ["="%char]))
      by (rewrite length_app; simpl; lia).
    by rewrite drop_app_length.
Qed.

Lemma format_int_head n :
  exists c s, format_int n = c :: s /\ (isdigit c = true \/ c = "-"%char).
Proof.
  pose proof (format_int_chars n) as Hchars.
  destruct (format_int_shape n) as (d & Hd & _ & Heq).
  destruct (format_int n) as [|c s].
  - apply uint_chars_nonnil in Hd. by destruct (n <? 0), (uint_chars d).
  - apply Forall_cons in Hchars as [Hc _]. by exists c, s.
Qed.

Lemma format_int_no c n :
  (forall a, isdigit a = true \/ a = "-"%char -> a ≠ c) ->
  Forall (fun a => a ≠ c) (format_int n).
Proof. intros H. eapply Forall_impl; [apply format_int_chars|]. done. Qed.

Lemma format_int_no_equals n : Forall (fun a => a ≠ "="%char) (format_int n).
Proof. apply format_int_no. intros a Ha. by apply numeral_char_facts. Qed.

Lemma format_int_no_LF n : Forall (fun a => a ≠ LF) (format_int n).
Proof. apply format_int_no. intros a Ha. by apply numeral_char_facts. Qed.

(** An [id=code] line is read as the record [(id, code)]. *)
Lemma record_of_entry id code :
  record_of (print_line (Entry id code)) = Some (id, code).
Proof.
  simpl. set (line := format_int id ++ "="%char :: format_int code).
  assert (Hstrip : strip line = line).
  { apply strip_id, Forall_app. split; [apply format_int_no_space|].
    constructor; [done|apply format_int_no_space]. }
  assert (Hrec : is_record line = true).
  { unfold is_record. rewrite Hstrip. unfold line.
    destruct (format_int_head id) as (c & s & -> & Hc).
    destruct (numeral_char_facts c Hc) as (_ & _ & _ & Hhash & _).
    change (negb (Ascii.eqb "#" c) = true).
    destruct (Ascii.eqb_spec "#"%char c) as [Heq|]; [by symmetry in Heq|done]. }
  destruct (fields_of_record (format_int id) (format_int code)
              (format_int_no_equals id)) as [Hkey Hval].
  unfold record_of. fold line. rewrite Hrec, Hstrip. unfold line.
  by rewrite Hkey, Hval, !int_format_int.
Qed.

Lemma no_LF_Forall s : no_LF s = true -> Forall (fun c => c ≠ LF) s.
Proof.
  unfold no_LF. intros H. apply Forall_forall. intros c Hc ->.
  rewrite forallb_forall in H. specialize (H LF).
  rewrite <- list_elem_of_In in H. by specialize (H Hc).
Qed.

Lemma strip_blank ws : forallb isspace ws = true -> strip ws = [].
Proof.
  intros H. unfold strip.
  by rewrite <- (app_nil_r ws), (lstrip_spaces ws [] H).
Qed.

Lemma is_record_comment ws text :
  forallb isspace ws = true -> is_record (ws ++ "#"%char :: text) = false.
Proof.
  intros H. unfold is_record, strip. rewrite (lstrip_spaces ws _ H).
  change (lstrip ("#"%char :: text)) with ("#"%char :: text).
  by rewrite rstrip_cons.
Qed.

(** A well-formed line contributes its entry, if it is one, and is never
    non-numeric. *)
Lemma record_of_print_line l :
  well_formed l = true -> record_of (print_line l) = entry_of l.
Proof.
  destruct l as [id code|ws|ws text]; simpl well_formed; intros Hwf.
  - apply record_of_entry.
  - apply andb_true_iff in Hwf as [Hws _]. apply record_of_skip.
    unfold is_record. simpl. by rewrite (strip_blank ws Hws).
  - apply andb_true_iff in Hwf as [[Hws _]%andb_true_iff _].
    apply record_of_skip. by apply is_record_comment.
Qed.

Lemma non_numeric_print_line l :
  well_formed l = true -> non_numeric (print_line l) = false.
Proof.
  intros Hwf. pose proof (record_of_print_line l Hwf) as Hrec.
  unfold non_numeric. destruct (is_record (print_line l)) eqn:His; [|done].
  destruct l as [id code|ws|ws text].
  - apply record_of_Some in Hrec as (_ & Hk & Hv).
    unfold int_fails. by rewrite Hk, Hv.
  - simpl in Hwf. apply andb_true_iff in Hwf as [Hws _].
    unfold is_record in His. simpl in His. by rewrite (strip_blank ws Hws) in His.
  - simpl in Hwf. apply andb_true_iff in Hwf as [[Hws _]%andb_true_iff _].
    simpl in His. by rewrite (is_record_comment ws text Hws) in His.
Qed.

Lemma print_line_no_LF l :
  well_formed l = true -> Forall (fun c => c ≠ LF) (print_line l).
Proof.
  destruct l as [id code|ws|ws text]; simpl; intros Hwf.
  - apply Forall_app. split; [apply format_int_no_LF|].
    constructor; [done|apply format_int_no_LF].
  - apply andb_true_iff in Hwf as [_ Hws]. by apply no_LF_Forall.
  - apply andb_true_iff in Hwf as [[_ Hws]%andb_true_iff Htext].
    apply Forall_app. split; [by apply no_LF_Forall|].
    constructor; [done|by apply no_LF_Forall].
Qed.

(** The lines of a printed output. *)
Lemma split_solver_output F ls :
  forallb well_formed ls = true ->
  split LF (solver_output F ls)
  = (str "flow=" ++ format_int F) :: (print_line <$> ls).
Proof.
  intros Hwf. unfold solver_output.
  rewrite app_assoc.
  replace ((fun l => LF :: print_line l) <$> ls)
    with ((fun l => LF :: l) <$> (print_line <$> ls))
    by (by rewrite <- list_fmap_compose).
  apply split_lines.
  - apply Forall_app. split; [by repeat constructor|apply format_int_no_LF].
  - apply Forall_fmap, Forall_forall. intros l Hl. simpl.
    apply print_line_no_LF.
    rewrite forallb_forall in Hwf. apply Hwf. by apply list_elem_of_In.
Qed.

Lemma list_to_map_reverse_last (l : list (Z * Z)) (k : Z) :
  (list_to_map (reverse l) : gmap Z Z) !! k
  = snd <$> last (filter (fun kv : Z * Z => kv.1 = k) l).
Proof.
  induction l as [|[k' v] l IH] using rev_ind; [done|].
  rewrite reverse_snoc, filter_app, list_to_map_cons, filter_cons, filter_nil.
  simpl.
  destruct (decide (k' = k)) as [->|Hne].
  - by rewrite lookup_insert_eq, last_snoc.
  - by rewrite lookup_insert_ne, app_nil_r.
Qed.

Lemma omap_record_of_print_line ls :
  forallb well_formed ls = true ->
  omap record_of (print_line <$> ls) = omap entry_of ls.
Proof.
  induction ls as [|l ls IH]; [done|].
  simpl forallb. intros [Hl Hls]%andb_true_iff.
  rewrite fmap_cons.
  change (omap record_of (print_line l :: (print_line <$> ls)))
    with (match record_of (print_line l) with
          | Some y => y :: omap record_of (print_line <$> ls)
          | None => omap record_of (print_line <$> ls)
          end).
  by rewrite (record_of_print_line l Hl), (IH Hls).
Qed.

Lemma first_line_solver_output F ls :
  forallb well_formed ls = true ->
  first_line (solver_output F ls) = str "flow" ++ "="%char :: format_int F.
Proof.
  intros Hwf. unfold first_line. by rewrite (split_solver_output F ls Hwf).
Qed.

Lemma later_lines_solver_output F ls :
  forallb well_formed ls = true ->
  later_lines (solver_output F ls) = print_line <$> ls.
Proof.
  intros Hwf. unfold later_lines. by rewrite (split_solver_output F ls Hwf).
Qed.

Lemma flow_field_solver_output F :
  int (value_field (str "flow" ++ "="%char :: format_int F)) = inr F.
Proof.
  destruct (fields_of_record (str "flow") (format_int F)) as [_ Hval].
  { by repeat constructor. }
  by rewrite Hval, int_format_int.
Qed.

Lemma malformed_solver_output F ls :
  forallb well_formed ls = true -> malformed (solver_output F ls) = false.
Proof.
  intros Hwf. unfold malformed.
  rewrite (first_line_solver_output F ls Hwf),
    (later_lines_solver_output F ls Hwf).
  apply orb_false_iff. split.
  - unfold int_fails. by rewrite flow_field_solver_output.
  - apply not_true_iff_false. intros Hex.
    apply existsb_exists in Hex as (line & Hin & Hbad).
    apply list_elem_of_In, list_elem_of_fmap in Hin as (l & -> & Hl).
    rewrite non_numeric_print_line in Hbad; [done|].
    rewrite forallb_forall in Hwf. apply Hwf. by apply list_elem_of_In.
Qed.

(** C2: for every well-formed solver output, a first line [flow=F] followed by
    [id=code] lines, blank lines and comment lines in any order,
    [bk_mfmc_parse] returns exactly [(F, {id: code, ...})], the mapping of the
    [id=code] lines alone; and parsing ["flow=12\n1=0\n2=1\n# comment\n\n3=0"]
    yields [(12, {1: 0, 2: 1, 3: 0})]. *)
Theorem bk_mfmc_parse_solver_output (SOURCE SINK : Z) (F : Z)
    (ls : list output_line) (logger : Logger) :
  forallb well_formed ls = true ->
  (bk_mfmc_parse SOURCE SINK (solver_output F ls) logger).2
  = inr (F, entries ls)
  /\ (bk_mfmc_parse SOURCE SINK example_output logger).2
     = inr (12, {[ 1 := 0; 2 := 1; 3 := 0 ]}).
Proof.
  intros Hwf. split; [|rewrite bk_mfmc_parse_result; by vm_compute].
  rewrite bk_mfmc_parse_result.
  destruct (bk_mfmc_parse_body_accepts _ (malformed_solver_output F ls Hwf))
    as (flow & nodes & Hflow & -> & Hlookup).
  f_equal. f_equal.
  - rewrite (first_line_solver_output F ls Hwf), flow_field_solver_output
      in Hflow.
    congruence.
  - apply map_eq. intros k.
    rewrite Hlookup, (later_lines_solver_output F ls Hwf).
    unfold last_code, entries.
    by rewrite (omap_record_of_print_line ls Hwf), list_to_map_reverse_last.
Qed.

Lemma bk_mfmc_parse_solver_output_witness :
  (bk_mfmc_parse spec_SOURCE spec_SINK (solver_output 12 example_lines) []).2
  = inr (12, entries example_lines)
  /\ (bk_mfmc_parse spec_SOURCE spec_SINK example_output []).2
     = inr (12, {[ 1 := 0; 2 := 1; 3 := 0 ]}).
Proof.
  apply (bk_mfmc_parse_solver_output spec_SOURCE spec_SINK 12 example_lines []).
  reflexivity.
Defined.

Lemma parse_solver_output SOURCE SINK F ls logger :
  forallb well_formed ls = true ->
  (bk_mfmc_parse SOURCE SINK (solver_output F ls) logger).2
  = inr (F, entries ls).
Proof.
  intros Hwf. rewrite bk_mfmc_parse_result.
  destruct (bk_mfmc_parse_body_accepts _ (malformed_solver_output F ls Hwf))
    as (flow & nodes & Hflow & -> & Hlookup).
  rewrite (first_line_solver_output F ls Hwf), flow_field_solver_output
    in Hflow.
  injection Hflow as <-. do 2 f_equal. apply map_eq. intros k.
  rewrite Hlookup, (later_lines_solver_output F ls Hwf).
  unfold last_code, entries.
  by rewrite (omap_record_of_print_line ls Hwf), list_to_map_reverse_last.
Qed.

Lemma filter_id_no_entry (id : Z) (post : list output_line) :
  (forall code', Entry id code' ∉ post) ->
  filter (fun kv : Z * Z => kv.1 = id) (omap entry_of post) = [].
Proof.
  intros Hpost.
  destruct (filter _ (omap entry_of post)) as [|[k v] rest] eqn:Hf; [done|].
  exfalso.
  assert ((k, v) ∈ filter (fun kv : Z * Z => kv.1 = id) (omap entry_of post))
    as Hel by (rewrite Hf; by left).
  apply list_elem_of_filter in Hel as [Hk Hel]. simpl in Hk. subst k.
  apply list_elem_of_omap in Hel as (l & Hl & Hentry).
  destruct l as [id' code'|ws|ws text]; try done.
  injection Hentry as -> ->. by apply (Hpost v).
Qed.

Lemma entries_last_entry (pre post : list output_line) (id code : Z) :
  (forall code', Entry id code' ∉ post) ->
  entries (pre ++ Entry id code :: post) !! id = Some code.
Proof.
  intros Hpost. unfold entries. rewrite list_to_map_reverse_last, omap_app.
  change (omap entry_of (Entry id code :: post))
    with ((id, code) :: omap entry_of post).
  rewrite filter_app, filter_cons. simpl.
  destruct (decide (id = id)); [|done].
  by rewrite (filter_id_no_entry id post Hpost), last_snoc.
Qed.

(** C8: a well-formed solver output in which a node id stands on several
    [id=code] lines is accepted, and the returned mapping, the dictionary of
    the [id=code] lines, associates that node id with the code of the last of
    these lines: for an output whose lines are [pre], then [id=code], then
    [post] without a line for [id], the mapping holds [code] for [id],
    whatever lines for [id] stand in [pre]. *)
Theorem bk_mfmc_parse_last_write_wins (SOURCE SINK : Z) (F : Z)
    (pre post : list output_line) (id code : Z) (logger : Logger) :
  forallb well_formed (pre ++ Entry id code :: post) = true ->
  (forall code', Entry id code' ∉ post) ->
  (bk_mfmc_parse SOURCE SINK
     (solver_output F (pre ++ Entry id code :: post)) logger).2
  = inr (F, entries (pre ++ Entry id code :: post))
  /\ entries (pre ++ Entry id code :: post) !! id = Some code.
Proof.
  intros Hwf Hpost. split.
  - by apply parse_solver_output.
  - by apply entries_last_entry.
Qed.

Lemma bk_mfmc_parse_last_write_wins_witness :
  (bk_mfmc_parse spec_SOURCE spec_SINK output_repeated_id []).2
  = inr (1, {[ 7 := 1 ]})
  /\ ({[ 7 := 1 ]} : gmap Z Z) !! 7 = Some 1.
Proof.
  exact (bk_mfmc_parse_last_write_wins spec_SOURCE spec_SINK 1 [Entry 7 0] []
           7 1 [] eq_refl (fun code' => not_elem_of_nil (Entry 7 code'))).
Defined.

(** The example output of the spec is a printed output. *)
Example example_output_printed :
  example_output = solver_output 12 example_lines.
Proof. reflexivity. Qed.

(** The example of the spec on masks, with a non-zero source marker and a zero
    sink marker: [{1: 1, 2: 0, 3: 1}] on [[1,2],[3,1]] gives
    [[True,False],[True,True]]. *)
Example apply_mapping_example :
  (apply_mapping example_image {[ 1 := 1; 2 := 0; 3 := 1 ]} example_store).2
  = inr (mk_mask [2; 2]%nat [true; false; true; true]).
Proof. by vm_compute. Qed.

(** * Further properties of the mapping applicator *)

Lemma translate_same_outcome dt (mapping mapping' : gmap Z Z) ids :
  (forall r, r ∈ ids ->
     match mapping !! r, mapping' !! r with
     | Some v, Some v' =>
         fits_C_long dt v = fits_C_long dt v'
         /\ (cast dt v = 0 <-> cast dt v' = 0)
     | None, None => True
     | _, _ => False
     end) ->
  match translate dt mapping ids, translate dt mapping' ids with
  | inl e, inl e' => e = e'
  | inr vs, inr vs' =>
      (fun x : Z => negb (x =? 0)) <$> vs = (fun x : Z => negb (x =? 0)) <$> vs'
  | _, _ => False
  end.
Proof.
  induction ids as [|r ids IH]; intros Hagree; simpl; [done|].
  pose proof (Hagree r (list_elem_of_here _ _)) as Hr.
  assert (Hids : forall r0, r0 ∈ ids ->
            match mapping !! r0, mapping' !! r0 with
            | Some v, Some v' =>
                fits_C_long dt v = fits_C_long dt v'
                /\ (cast dt v = 0 <-> cast dt v' = 0)
            | None, None => True
            | _, _ => False
            end).
  { intros r0 Hr0. apply Hagree. by right. }
  specialize (IH Hids).
  destruct (mapping !! r) as [v|], (mapping' !! r) as [v'|]; try done.
  destruct Hr as [Hfits Hzero]. rewrite <- Hfits.
  destruct (fits_C_long dt v); [|done].
  destruct (translate dt mapping ids) as [e|vs],
    (translate dt mapping' ids) as [e'|vs']; try done.
  rewrite !fmap_cons, IH. f_equal.
  destruct (Z.eqb_spec (cast dt v) 0), (Z.eqb_spec (cast dt v') 0); tauto.
Qed.

(** X1: the outcome of [apply_mapping] depends on the mapping only through
    the region ids of the image: two mappings that agree on every region id of
    the image give the same mask or the same error, so entries for other ids
    are ignored. *)
Theorem apply_mapping_only_image_ids (label_image : ndarray)
    (mapping mapping' : gmap Z Z) (st : gmap positive (list Z)) :
  (forall r, r ∈ elems label_image st -> mapping !! r = mapping' !! r) ->
  (apply_mapping label_image mapping st).2
  = (apply_mapping label_image mapping' st).2.
Proof.
  intros Hagree. rewrite !apply_mapping_result.
  pose proof (translate_same_outcome (dtype_of label_image) mapping mapping'
                (elems label_image st)) as Hsame.
  assert (Hcond : forall r, r ∈ elems label_image st ->
            match mapping !! r, mapping' !! r with
            | Some v, Some v' =>
                fits_C_long (dtype_of label_image) v
                = fits_C_long (dtype_of label_image) v'
                /\ (cast (dtype_of label_image) v = 0
                    <-> cast (dtype_of label_image) v' = 0)
            | None, None => True
            | _, _ => False
            end).
  { intros r Hr. rewrite (Hagree r Hr). by destruct (mapping' !! r). }
  specialize (Hsame Hcond).
  destruct (translate (dtype_of label_image) mapping (elems label_image st))
    as [e|vs],
    (translate (dtype_of label_image) mapping' (elems label_image st))
    as [e'|vs']; try done.
  - by rewrite Hsame.
  - by rewrite Hsame.
Qed.

Lemma apply_mapping_only_image_ids_witness :
  (apply_mapping example_image mapping_012 example_store).2
  = (apply_mapping example_image mapping_012_extra example_store).2.
Proof.
  apply (apply_mapping_only_image_ids example_image mapping_012
           mapping_012_extra example_store).
  refine (proj1 (Forall_forall _ _) _).
  repeat (constructor; [reflexivity|]). constructor.
Defined.

(** X2: the mask tells a stored zero from a stored non-zero and nothing
    more: two mappings that hold the same region ids of the image, with
    values that fit the C long and that, cast to the element type of the
    image, are both zero or both non-zero for each id, give the same mask, and
    the same error when an id is missing. *)
Theorem apply_mapping_zero_or_not (label_image : ndarray)
    (mapping mapping' : gmap Z Z) (st : gmap positive (list Z)) :
  (forall r, r ∈ elems label_image st ->
     match mapping !! r, mapping' !! r with
     | Some v, Some v' =>
         fits_C_long (dtype_of label_image) v = true
         /\ fits_C_long (dtype_of label_image) v' = true
         /\ (cast (dtype_of label_image) v = 0
             <-> cast (dtype_of label_image) v' = 0)
     | None, None => True
     | _, _ => False
     end) ->
  (apply_mapping label_image mapping st).2
  = (apply_mapping label_image mapping' st).2.
Proof.
  intros Hagree. rewrite !apply_mapping_result.
  pose proof (translate_same_outcome (dtype_of label_image) mapping mapping'
                (elems label_image st)) as Hsame.
  assert (Hcond : forall r, r ∈ elems label_image st ->
            match mapping !! r, mapping' !! r with
            | Some v, Some v' =>
                fits_C_long (dtype_of label_image) v
                = fits_C_long (dtype_of label_image) v'
                /\ (cast (dtype_of label_image) v = 0
                    <-> cast (dtype_of label_image) v' = 0)
            | None, None => True
            | _, _ => False
            end).
  { intros r Hr. specialize (Hagree r Hr).
    destruct (mapping !! r), (mapping' !! r); try done.
    destruct Hagree as (-> & -> & ?). done. }
  specialize (Hsame Hcond).
  destruct (translate (dtype_of label_image) mapping (elems label_image st))
    as [e|vs],
    (translate (dtype_of label_image) mapping' (elems label_image st))
    as [e'|vs']; try done.
  - by rewrite Hsame.
  - by rewrite Hsame.
Qed.

Lemma apply_mapping_zero_or_not_witness :
  (apply_mapping example_image_uint8 mapping_256 example_store).2
  = (apply_mapping example_image_uint8 mapping_012 example_store).2.
Proof.
  apply (apply_mapping_zero_or_not example_image_uint8 mapping_256 mapping_012
           example_store).
  refine (proj1 (Forall_forall _ _) _).
  repeat (constructor; [by vm_compute|]). constructor.
Defined.

(** X3: [apply_mapping] has three outcomes and no other: a call returns a
    mask of the shape and size of the image, or raises the [ArgumentError]
    for a region id that occurs in the image and is not in the mapping, or
    raises [OverflowError] for a mapped value that does not fit the C long.
    The subscripts [rav[i]] never leave the array. *)
Theorem apply_mapping_outcomes (label_image : ndarray) (mapping : gmap Z Z)
    (st : gmap positive (list Z)) :
  (exists m,
     (apply_mapping label_image mapping st).2 = inr m
     /\ mask_shape m = shape label_image
     /\ length (mask_data m) = length (elems label_image st))
  \/ (exists r,
        r ∈ elems label_image st /\ mapping !! r = None
        /\ (apply_mapping label_image mapping st).2
           = inl (ArgumentError_NoConversion r))
  \/ (exists r v,
        r ∈ elems label_image st /\ mapping !! r = Some v
        /\ fits_C_long (dtype_of label_image) v = false
        /\ (apply_mapping label_image mapping st).2 = inl OverflowError).
Proof.
  rewrite apply_mapping_result.
  destruct (translate (dtype_of label_image) mapping (elems label_image st))
    as [e|vs] eqn:Ht.
  - right.
    destruct (translate_inl mapping _ _ _ Ht)
      as (pre & r & post & Hsplit & _ & [[Hnone ->]|(v & Hv & Hfits & ->)]).
    + left. exists r. split; [|done].
      rewrite Hsplit. apply elem_of_app. right. by left.
    + right. exists r, v. split; [|done].
      rewrite Hsplit. apply elem_of_app. right. by left.
  - left. eexists. split; [done|]. split; [done|]. simpl.
    rewrite length_fmap. symmetry.
    eapply Forall2_length, translate_inr, Ht.
Qed.

(** X4: an image without elements gives the mask without elements, of the
    shape of the image, for every mapping, the empty one included. *)
Theorem apply_mapping_empty_image (label_image : ndarray) (mapping : gmap Z Z)
    (st : gmap positive (list Z)) :
  elems label_image st = [] ->
  (apply_mapping label_image mapping st).2
  = inr (mk_mask (shape label_image) []).
Proof. intros Hempty. by rewrite apply_mapping_result, Hempty. Qed.

Lemma apply_mapping_empty_image_witness :
  (apply_mapping empty_image ∅ empty_store).2 = inr (mk_mask [0%nat] []).
Proof.
  apply (apply_mapping_empty_image empty_image ∅ empty_store). reflexivity.
Defined.

(** * Further properties of the result parser *)

Lemma bk_mfmc_parse_body_eq output :
  bk_mfmc_parse_body output
  = (do flow <- int (value_field (first_line output)) ;;
     do nodes <- parse_lines ∅ (later_lines output) ;;
     inr (flow, nodes)).
Proof. unfold bk_mfmc_parse_body. by rewrite subscript_first_line. Qed.

Lemma bk_mfmc_parse_inr SOURCE SINK output logger flow nodes :
  (bk_mfmc_parse SOURCE SINK output logger).2 = inr (flow, nodes)
  <-> int (value_field (first_line output)) = inr flow
      /\ parse_lines ∅ (later_lines output) = inr nodes.
Proof.
  rewrite bk_mfmc_parse_result, bk_mfmc_parse_body_eq.
  destruct (int (value_field (first_line output))) as [e|flow'] eqn:Hflow;
    simpl.
  - split; [by destruct e|by intros [? _]].
  - destruct (parse_lines ∅ (later_lines output)) as [e|nodes']; simpl.
    + split; [by destruct e|by intros [_ ?]].
    + split; [by intros [= -> ->]|by intros [[= ->] [= ->]]].
Qed.

Lemma parse_line_inr nodes line nodes' :
  parse_line nodes line = inr nodes' -> nodes' = add_record nodes line.
Proof.
  unfold add_record. destruct (is_record line) eqn:Hrec.
  - destruct (non_numeric line) eqn:Hbad.
    + destruct (parse_line_non_numeric nodes line Hbad) as (f & _ & _ & ->).
      done.
    + destruct (parse_line_record nodes line Hrec Hbad) as (k & v & -> & ->).
      by intros [= <-].
  - rewrite (parse_line_skip nodes line Hrec), (record_of_skip line Hrec).
    by intros [= <-].
Qed.

Lemma parse_line_refused nodes line :
  non_numeric line = true ->
  parse_line nodes line = inl (ValueError (refused_field line)).
Proof.
  intros Hbad. unfold refused_field.
  destruct (parse_line_non_numeric nodes line Hbad) as (f & Hf & Hfail & Hparse).
  unfold non_numeric, parse_line, is_record in *.
  apply andb_true_iff in Hbad as [Hrec Hfields].
  apply negb_true_iff in Hrec. rewrite Hrec.
  destruct (int_fails (value_field (strip line))) eqn:Hv.
  - by rewrite (int_fails_inl _ Hv).
  - simpl in Hfields. apply int_fails_false in Hv as [v ->]. simpl.
    by rewrite (int_fails_inl _ Hfields).
Qed.

Lemma parse_lines_app nodes lines lines' :
  parse_lines nodes (lines ++ lines')
  = (do nodes' <- parse_lines nodes lines ;; parse_lines nodes' lines').
Proof.
  revert nodes. induction lines as [|line lines IH]; intros nodes; simpl; [done|].
  destruct (parse_line nodes line) as [e|nodes']; simpl; [done|]. apply IH.
Qed.

Lemma parse_lines_inr nodes lines nodes' :
  parse_lines nodes lines = inr nodes' -> nodes' = foldl add_record nodes lines.
Proof.
  revert nodes. induction lines as [|line lines IH]; intros nodes; simpl.
  - by intros [= <-].
  - destruct (parse_line nodes line) as [e|nodes1] eqn:Hline; simpl; [done|].
    apply parse_line_inr in Hline as ->. apply IH.
Qed.

Lemma size_add_record nodes line :
  (size (add_record nodes line) <= S (size nodes))%nat.
Proof.
  unfold add_record. destruct (record_of line) as [[k v]|]; [|lia].
  rewrite map_size_insert. destruct (nodes !! k); simpl; lia.
Qed.

Lemma size_foldl_add_record lines nodes :
  (size (foldl add_record nodes lines) <= size nodes + length lines)%nat.
Proof.
  revert nodes. induction lines as [|line lines IH]; intros nodes; simpl; [lia|].
  specialize (IH (add_record nodes line)).
  pose proof (size_add_record nodes line). lia.
Qed.

Lemma last_code_is_Some k lines :
  (exists line v, line ∈ lines /\ record_of line = Some (k, v)) ->
  is_Some (last_code k lines).
Proof.
  intros (line & v & Hin & Hrec). unfold last_code.
  apply fmap_is_Some, last_is_Some. intros Hnil.
  assert ((k, v) ∈ filter (fun kv : Z * Z => kv.1 = k) (omap record_of lines))
    as Hel.
  { apply list_elem_of_filter. split; [done|].
    apply list_elem_of_omap. by exists line. }
  rewrite Hnil in Hel. by apply elem_of_nil in Hel.
Qed.

(** X6: the parser raises nothing but the [ArgumentError] made from a
    [ValueError]: for every text, the empty one included, a call either
    returns a flow and a mapping or raises that error for a field [int()]
    refuses. The subscript [lines[0]] never leaves the list. *)
Theorem bk_mfmc_parse_outcomes (SOURCE SINK : Z) (output : pystr)
    (logger : Logger) :
  (exists flow nodes,
     (bk_mfmc_parse SOURCE SINK output logger).2 = inr (flow, nodes))
  \/ (exists field,
        parsed_field output field /\ int field = inl (ValueError field)
        /\ (bk_mfmc_parse SOURCE SINK output logger).2
           = inl (ArgumentError_Maleformed (ValueError field))).
Proof.
  rewrite bk_mfmc_parse_result. destruct (malformed output) eqn:Hbad.
  - right. destruct (bk_mfmc_parse_body_rejects output Hbad)
      as (field & Hf & Hfail & ->).
    exists field. split; [done|]. split; [by apply int_fails_inl|done].
  - left. destruct (bk_mfmc_parse_body_accepts output Hbad)
      as (flow & nodes & _ & -> & _).
    by exists flow, nodes.
Qed.

(** X7: the mapping holds nothing the text does not: for every accepted
    output, a node id is a key of the mapping exactly when a record line has
    that id, every entry is the id and code of one record line, and the
    mapping has at most as many entries as there are lines after the
    first. *)
Theorem bk_mfmc_parse_entries_from_lines (SOURCE SINK : Z) (output : pystr)
    (logger : Logger) (flow : Z) (nodes : gmap Z Z) :
  (bk_mfmc_parse SOURCE SINK output logger).2 = inr (flow, nodes) ->
  (forall k, is_Some (nodes !! k)
             <-> exists line v,
                   line ∈ later_lines output /\ record_of line = Some (k, v))
  /\ (forall k v, nodes !! k = Some v ->
        exists line, line ∈ later_lines output /\ record_of line = Some (k, v))
  /\ (size nodes <= length (later_lines output))%nat.
Proof.
  intros Hres.
  pose proof (proj1 (bk_mfmc_parse_inr _ _ _ _ _ _) Hres) as [_ Hlines].
  rewrite bk_mfmc_parse_result in Hres.
  destruct (malformed output) eqn:Hbad.
  { destruct (bk_mfmc_parse_body_rejects output Hbad) as (f & _ & _ & Hbody).
    by rewrite Hbody in Hres. }
  destruct (bk_mfmc_parse_body_accepts output Hbad)
    as (flow' & nodes' & _ & Hbody & Hlookup).
  rewrite Hbody in Hres. injection Hres as -> ->.
  split; [|split].
  - intros k. rewrite Hlookup. split.
    + intros [v Hv]. apply last_code_Some in Hv as (line & Hin & Hrec).
      by exists line, v.
    + apply last_code_is_Some.
  - intros k v Hkv. rewrite Hlookup in Hkv. by apply last_code_Some.
  - apply parse_lines_inr in Hlines as ->.
    pose proof (size_foldl_add_record (later_lines output) ∅) as Hsize.
    rewrite map_size_empty in Hsize. lia.
Qed.

Lemma bk_mfmc_parse_entries_from_lines_witness :
  (forall k, is_Some (example_nodes !! k)
             <-> exists line v,
                   line ∈ later_lines example_output
                   /\ record_of line = Some (k, v))
  /\ (forall k v, example_nodes !! k = Some v ->
        exists line,
          line ∈ later_lines example_output /\ record_of line = Some (k, v))
  /\ (size example_nodes <= length (later_lines example_output))%nat.
Proof.
  apply (bk_mfmc_parse_entries_from_lines spec_SOURCE spec_SINK example_output
           [] 12 example_nodes).
  reflexivity.
Defined.

(** X8: the parser stops at the first line it cannot read and reports the
    field [int()] refuses first. When the flow is numeric and the first
    non-numeric record line is [bad], the error carries the code field of
    [bad] if that is not numeric, else its node-id field, whatever the lines
    after [bad] hold. *)
Theorem bk_mfmc_parse_first_error (SOURCE SINK : Z) (output : pystr)
    (logger : Logger) (pre : list pystr) (bad : pystr) (post : list pystr) :
  int_fails (value_field (first_line output)) = false ->
  later_lines output = pre ++ bad :: post ->
  existsb non_numeric pre = false ->
  non_numeric bad = true ->
  (bk_mfmc_parse SOURCE SINK output logger).2
  = inl (ArgumentError_Maleformed (ValueError (refused_field bad))).
Proof.
  intros Hflow Hsplit Hpre Hbad.
  rewrite bk_mfmc_parse_result, bk_mfmc_parse_body_eq.
  apply int_fails_false in Hflow as [flow ->]. simpl.
  rewrite Hsplit, parse_lines_app.
  destruct (parse_lines_accepts pre ∅ Hpre) as (nodes & -> & _). simpl.
  by rewrite (parse_line_refused nodes bad Hbad).
Qed.

Lemma bk_mfmc_parse_first_error_witness :
  (bk_mfmc_parse spec_SOURCE spec_SINK output_then_bad []).2
  = inl (ArgumentError_Maleformed (ValueError (refused_field (str "x=y")))).
Proof.
  apply (bk_mfmc_parse_first_error spec_SOURCE spec_SINK output_then_bad []
           [str "1=0"] (str "x=y") [str "zz"]); reflexivity.
Defined.

Lemma split_app_no_sep sep l s :
  Forall (fun c => c ≠ sep) l ->
  split sep (l ++ s)
  = match split sep s with
    | [] => [l]
    | x :: xs => (l ++ x) :: xs
    end.
Proof.
  pose proof (split_nonempty sep s) as Hne.
  induction 1 as [|c l Hc _ IH]; simpl.
  - by destruct (split sep s).
  - destruct (Ascii.eqb_spec c sep); [done|]. rewrite IH.
    by destruct (split sep s).
Qed.

Lemma first_line_app l s :
  Forall (fun c => c ≠ LF) l -> first_line (l ++ s) = l ++ first_line s.
Proof.
  intros Hl. unfold first_line. rewrite (split_app_no_sep LF l s Hl).
  pose proof (split_nonempty LF s). by destruct (split LF s).
Qed.

Lemma later_lines_app l s :
  Forall (fun c => c ≠ LF) l -> later_lines (l ++ s) = later_lines s.
Proof.
  intros Hl. unfold later_lines. rewrite (split_app_no_sep LF l s Hl).
  pose proof (split_nonempty LF s). by destruct (split LF s).
Qed.

Lemma plain_prefix_Forall s :
  plain_prefix s = true ->
  Forall (fun c => c ≠ "="%char) s /\ Forall (fun c => c ≠ LF) s.
Proof.
  unfold plain_prefix. intros H.
  assert (Hall : Forall (fun c => c ≠ "="%char /\ c ≠ LF) s).
  { apply Forall_forall. intros c Hc.
    rewrite forallb_forall in H. specialize (H c).
    rewrite <- list_elem_of_In in H. specialize (H Hc).
    apply andb_true_iff in H as [H1 H2].
    split; intros ->; [by vm_compute in H1|by vm_compute in H2]. }
  split; eapply Forall_impl; try apply Hall; by intros c [? ?].
Qed.

(** The flow field and the later lines of a text with a plain prefix. *)
Lemma plain_prefix_lines prefix rest :
  plain_prefix prefix = true ->
  value_field (first_line (prefix ++ "="%char :: rest)) = first_line rest
  /\ later_lines (prefix ++ "="%char :: rest) = later_lines rest.
Proof.
  intros [Heq Hlf]%plain_prefix_Forall.
  change (prefix ++ "="%char :: rest) with (prefix ++ ["="%char] ++ rest).
  rewrite app_assoc.
  assert (Hl : Forall (fun c => c ≠ LF) (prefix ++ ["="%char])).
  { apply Forall_app. split; [done|]. by repeat constructor. }
  rewrite (first_line_app _ rest Hl), (later_lines_app _ rest Hl).
  split; [|done]. rewrite <- app_assoc. simpl.
  by destruct (fields_of_record prefix (first_line rest) Heq) as [_ ->].
Qed.

(** X9: what stands before the first ['='] of line 0 is not read: two texts
    that differ only in that prefix (without ['='] and line feed) give the same
    flow and mapping, or the same error. The word [flow] is not required. *)
Theorem bk_mfmc_parse_prefix_ignored (SOURCE SINK : Z)
    (prefix prefix' rest : pystr) (logger : Logger) :
  plain_prefix prefix = true -> plain_prefix prefix' = true ->
  (bk_mfmc_parse SOURCE SINK (prefix ++ "="%char :: rest) logger).2
  = (bk_mfmc_parse SOURCE SINK (prefix' ++ "="%char :: rest) logger).2.
Proof.
  intros Hp Hp'. rewrite !bk_mfmc_parse_result, !bk_mfmc_parse_body_eq.
  destruct (plain_prefix_lines prefix rest Hp) as [-> ->].
  by destruct (plain_prefix_lines prefix' rest Hp') as [-> ->].
Qed.

Lemma bk_mfmc_parse_prefix_ignored_witness :
  (bk_mfmc_parse spec_SOURCE spec_SINK
     (str "flow" ++ "="%char :: str "12" ++ LF :: str "1=0") []).2
  = (bk_mfmc_parse spec_SOURCE spec_SINK
       (str "" ++ "="%char :: str "12" ++ LF :: str "1=0") []).2.
Proof.
  apply (bk_mfmc_parse_prefix_ignored spec_SOURCE spec_SINK (str "flow")
           (str "") (str "12" ++ LF :: str "1=0") []); reflexivity.
Defined.

Lemma split_snoc_line output line :
  Forall (fun c => c ≠ LF) line ->
  split LF (output ++ LF :: line) = split LF output ++ [line].
Proof.
  intros Hline. induction output as [|c output IH]; simpl.
  - by rewrite (split_no_sep LF line Hline).
  - destruct (Ascii.eqb c LF); [by rewrite IH|].
    rewrite IH. pose proof (split_nonempty LF output).
    by destruct (split LF output).
Qed.

Lemma lines_snoc_line output line :
  Forall (fun c => c ≠ LF) line ->
  first_line (output ++ LF :: line) = first_line output
  /\ later_lines (output ++ LF :: line) = later_lines output ++ [line].
Proof.
  intros Hline. unfold first_line, later_lines.
  rewrite (split_snoc_line output line Hline).
  pose proof (split_nonempty LF output). by destruct (split LF output).
Qed.

(** X10: outputs are read line by line. When an output is accepted with the
    flow [flow] and the mapping [nodes], the output with one more line (after a
    line feed) is accepted with the same flow and [nodes] updated by that
    line, a record line writing its entry and a blank or comment line
    writing nothing; if the new line is not numeric, the longer output is
    rejected with the field [int()] refuses. *)
Theorem bk_mfmc_parse_one_more_line (SOURCE SINK : Z) (output line : pystr)
    (logger : Logger) (flow : Z) (nodes : gmap Z Z) :
  no_LF line = true ->
  (bk_mfmc_parse SOURCE SINK output logger).2 = inr (flow, nodes) ->
  (bk_mfmc_parse SOURCE SINK (output ++ LF :: line) logger).2
  = if non_numeric line
    then inl (ArgumentError_Maleformed (ValueError (refused_field line)))
    else inr (flow, add_record nodes line).
Proof.
  intros Hline%no_LF_Forall [Hflow Hnodes]%bk_mfmc_parse_inr.
  rewrite bk_mfmc_parse_result, bk_mfmc_parse_body_eq.
  destruct (lines_snoc_line output line Hline) as [-> ->].
  rewrite Hflow, parse_lines_app, Hnodes. simpl.
  destruct (non_numeric line) eqn:Hbad.
  - by rewrite (parse_line_refused nodes line Hbad).
  - destruct (parse_line nodes line) as [e|nodes'] eqn:Hparse.
    + exfalso. destruct (is_record line) eqn:Hrec.
      * destruct (parse_line_record nodes line Hrec Hbad) as (k & v & _ & Heq).
        congruence.
      * rewrite (parse_line_skip nodes line Hrec) in Hparse. congruence.
    + simpl. by rewrite (parse_line_inr _ _ _ Hparse).
Qed.

Lemma bk_mfmc_parse_one_more_line_witness :
  (bk_mfmc_parse spec_SOURCE spec_SINK (example_output ++ LF :: str "2=0") []).2
  = if non_numeric (str "2=0")
    then inl (ArgumentError_Maleformed (ValueError (refused_field (str "2=0"))))
    else inr (12, add_record example_nodes (str "2=0")).
Proof.
  apply (bk_mfmc_parse_one_more_line spec_SOURCE spec_SINK example_output
           (str "2=0") [] 12 example_nodes); reflexivity.
Defined.

(** ** White space around the numbers *)

Lemma lstrip_all_spaces ws : forallb isspace ws = true -> lstrip ws = [].
Proof.
  intros H. by rewrite <- (app_nil_r ws), (lstrip_spaces ws [] H).
Qed.

Lemma forallb_isspace_reverse ws :
  forallb isspace ws = true -> forallb isspace (reverse ws) = true.
Proof.
  rewrite !forallb_forall. intros H c Hc. apply H.
  apply list_elem_of_In. apply list_elem_of_In in Hc.
  by rewrite elem_of_reverse in Hc.
Qed.

Lemma rstrip_spaces s ws :
  forallb isspace ws = true -> rstrip (s ++ ws) = rstrip s.
Proof.
  intros H. unfold rstrip.
  by rewrite reverse_app, (lstrip_spaces _ _ (forallb_isspace_reverse ws H)).
Qed.

(** White space at either end of a text does not change what [strip]
    leaves. *)
Lemma strip_pad w t w' :
  forallb isspace w = true -> forallb isspace w' = true ->
  strip (w ++ t ++ w') = strip t.
Proof.
  intros Hw Hw'. unfold strip. rewrite (lstrip_spaces w _ Hw).
  induction t as [|c t IH]; simpl.
  - by rewrite (lstrip_all_spaces w' Hw').
  - destruct (isspace c); [exact IH|].
    change (c :: t ++ w') with ((c :: t) ++ w').
    by rewrite (rstrip_spaces (c :: t) w' Hw').
Qed.

Lemma int_same_strip s s' z :
  strip s = strip s' -> int s = inr z -> int s' = inr z.
Proof.
  unfold int. intros <-.
  destruct (match strip s with
            | [] => (false, strip s)
            | c :: r => _
            end) as [negative d].
  destruct d; [done|]. by destruct (digits_value 0 _).
Qed.

Lemma int_padded w n w' :
  forallb isspace w = true -> forallb isspace w' = true ->
  int (w ++ format_int n ++ w') = inr n.
Proof.
  intros Hw Hw'. apply (int_same_strip (format_int n)).
  - symmetry. by apply strip_pad.
  - apply int_format_int.
Qed.

Lemma isspace_not_equals c : isspace c = true -> c ≠ "="%char.
Proof. intros H ->. by vm_compute in H. Qed.

Lemma blanks_facts ws :
  blanks ws = true ->
  forallb isspace ws = true
  /\ Forall (fun c => c ≠ LF) ws /\ Forall (fun c => c ≠ "="%char) ws.
Proof.
  unfold blanks. intros [Hws Hlf]%andb_true_iff.
  split; [done|]. split; [by apply no_LF_Forall|].
  apply Forall_forall. intros c Hc. apply isspace_not_equals.
  rewrite forallb_forall in Hws. apply Hws. by apply list_elem_of_In.
Qed.

Lemma lstrip_head c s : isspace c = false -> lstrip (c :: s) = c :: s.
Proof. intros H. simpl. by rewrite H. Qed.

Lemma rstrip_app_nonspace a b :
  b ≠ [] -> Forall (fun c => isspace c = false) b -> rstrip (a ++ b) = a ++ b.
Proof.
  intros Hne Hb. unfold rstrip. rewrite reverse_app.
  assert (exists c r, reverse b = c :: r /\ isspace c = false) as (c & r & Hrev & Hc).
  { destruct (reverse b) as [|c r] eqn:Hrev.
    - apply (f_equal reverse) in Hrev. rewrite reverse_involutive in Hrev.
      by rewrite Hrev in Hne.
    - exists c, r. split; [done|].
      apply Forall_reverse in Hb. rewrite Hrev in Hb.
      by apply Forall_cons in Hb as [? _]. }
  rewrite Hrev. simpl app. rewrite (lstrip_head c _ Hc).
  change (c :: r ++ reverse a) with ((c :: r) ++ reverse a).
  by rewrite <- Hrev, <- reverse_app, reverse_involutive.
Qed.

Lemma format_int_nonnil n : format_int n ≠ [].
Proof. by destruct (format_int_head n) as (c & s & -> & _). Qed.

(** An entry line with white space around its numbers is read as the
    record of its numbers. *)
Lemma record_of_padded_entry w1 w2 w3 w4 id code :
  blanks w1 = true -> blanks w2 = true -> blanks w3 = true ->
  blanks w4 = true ->
  record_of (print_padded (PEntry w1 w2 w3 w4 id code)) = Some (id, code).
Proof.
  intros (H1 & _ & _)%blanks_facts (H2 & _ & H2eq)%blanks_facts
    (H3 & _ & _)%blanks_facts (H4 & _ & _)%blanks_facts.
  set (core := format_int id ++ w2 ++ "="%char :: w3 ++ format_int code).
  assert (Hline : print_padded (PEntry w1 w2 w3 w4 id code)
                  = w1 ++ core ++ w4).
  { unfold core, print_padded.
    change (str "=" ++ w3 ++ format_int code ++ w4)
      with ("="%char :: w3 ++ format_int code ++ w4).
    rewrite <- !app_assoc. do 3 f_equal.
    by rewrite <- app_comm_cons, <- app_assoc. }
  rewrite Hline.
  assert (Hstrip : strip (w1 ++ core ++ w4) = core).
  { rewrite (strip_pad w1 core w4 H1 H4). unfold strip.
    assert (Hl : lstrip core = core).
    { unfold core. destruct (format_int_head id) as (c & s & -> & Hc).
      apply lstrip_head. by apply numeral_char_facts. }
    rewrite Hl.
    replace core
      with ((format_int id ++ w2 ++ "="%char :: w3) ++ format_int code)
      by (unfold core; by rewrite <- !app_assoc).
    apply rstrip_app_nonspace;
      [apply format_int_nonnil|apply format_int_no_space]. }
  assert (Hrec : is_record (w1 ++ core ++ w4) = true).
  { unfold is_record. rewrite Hstrip. unfold core.
    destruct (format_int_head id) as (c & s & -> & Hc).
    destruct (numeral_char_facts c Hc) as (_ & _ & _ & Hhash & _).
    change (negb (Ascii.eqb "#" c) = true).
    destruct (Ascii.eqb_spec "#"%char c) as [Heq|]; [by symmetry in Heq|done]. }
  destruct (fields_of_record (format_int id ++ w2) (w3 ++ format_int code))
    as [Hkey Hval].
  { apply Forall_app. split; [apply format_int_no_equals|done]. }
  rewrite <- app_assoc in Hkey, Hval. fold core in Hkey, Hval.
  unfold record_of. rewrite Hrec, Hstrip, Hkey, Hval.
  rewrite <- (app_nil_l (format_int id ++ w2)).
  rewrite (int_padded [] id w2 eq_refl H2).
  rewrite <- (app_nil_r (format_int code)) at 1.
  by rewrite (int_padded w3 code [] H3 eq_refl).
Qed.

Lemma record_of_Some_numeric line kv :
  record_of line = Some kv -> non_numeric line = false.
Proof.
  destruct kv as [k v]. intros (Hrec & Hk & Hv)%record_of_Some.
  unfold non_numeric, int_fails. by rewrite Hrec, Hk, Hv.
Qed.

Lemma well_padded_unpad l :
  well_padded l = true ->
  match l with
  | PEntry _ _ _ _ _ _ => True
  | _ => well_formed (unpad l) = true /\ print_padded l = print_line (unpad l)
  end.
Proof.
  destruct l as [w1 w2 w3 w4 id code|ws|ws text]; simpl; [done|..].
  - unfold blanks. by intros ->.
  - unfold blanks. by intros ->.
Qed.

Lemma record_of_print_padded l :
  well_padded l = true ->
  record_of (print_padded l) = entry_of (unpad l)
  /\ non_numeric (print_padded l) = false.
Proof.
  intros Hwf. pose proof (well_padded_unpad l Hwf) as Hun.
  destruct l as [w1 w2 w3 w4 id code|ws|ws text].
  - simpl in Hwf.
    apply andb_true_iff in Hwf as [[[H1 H2]%andb_true_iff H3]%andb_true_iff H4].
    pose proof (record_of_padded_entry w1 w2 w3 w4 id code H1 H2 H3 H4) as Hrec.
    split; [done|]. by eapply record_of_Some_numeric.
  - destruct Hun as [Hwf' ->].
    split; [by apply record_of_print_line|by apply non_numeric_print_line].
  - destruct Hun as [Hwf' ->].
    split; [by apply record_of_print_line|by apply non_numeric_print_line].
Qed.

Lemma print_padded_no_LF l :
  well_padded l = true -> Forall (fun c => c ≠ LF) (print_padded l).
Proof.
  intros Hwf. pose proof (well_padded_unpad l Hwf) as Hun.
  destruct l as [w1 w2 w3 w4 id code|ws|ws text].
  - simpl in Hwf.
    apply andb_true_iff in Hwf as [[[H1 H2]%andb_true_iff H3]%andb_true_iff H4].
    apply blanks_facts in H1 as (_ & H1 & _), H2 as (_ & H2 & _),
      H3 as (_ & H3 & _), H4 as (_ & H4 & _).
    unfold print_padded.
    apply Forall_app; split; [done|].
    apply Forall_app; split; [apply format_int_no_LF|].
    apply Forall_app; split; [done|].
    apply Forall_app; split; [by repeat constructor|].
    apply Forall_app; split; [done|].
    apply Forall_app; split; [apply format_int_no_LF|done].
  - destruct Hun as [Hwf' ->]. by apply print_line_no_LF.
  - destruct Hun as [Hwf' ->]. by apply print_line_no_LF.
Qed.

Lemma split_padded_output wa wb F ls :
  blanks wa = true -> blanks wb = true -> forallb well_padded ls = true ->
  split LF (padded_output wa wb F ls)
  = (str "flow" ++ "="%char :: wa ++ format_int F ++ wb)
    :: (print_padded <$> ls).
Proof.
  intros (_ & Ha & _)%blanks_facts (_ & Hb & _)%blanks_facts Hwf.
  unfold padded_output.
  replace (str "flow=" ++ wa ++ format_int F ++ wb
           ++ concat ((fun l => LF :: print_padded l) <$> ls))
    with ((str "flow" ++ "="%char :: wa ++ format_int F ++ wb)
          ++ concat ((fun l => LF :: l) <$> (print_padded <$> ls))).
  2:{ rewrite <- list_fmap_compose. simpl. by rewrite <- !app_assoc. }
  apply split_lines.
  - apply Forall_app. split; [by repeat constructor|].
    constructor; [done|].
    repeat (apply Forall_app; split); try done. apply format_int_no_LF.
  - apply Forall_fmap, Forall_forall. intros l Hl. simpl.
    apply print_padded_no_LF.
    rewrite forallb_forall in Hwf. apply Hwf. by apply list_elem_of_In.
Qed.

Lemma omap_record_of_print_padded ls :
  forallb well_padded ls = true ->
  omap record_of (print_padded <$> ls) = omap entry_of (unpad <$> ls)
  /\ existsb non_numeric (print_padded <$> ls) = false.
Proof.
  induction ls as [|l ls IH]; [done|].
  simpl forallb. intros [Hl Hls]%andb_true_iff.
  destruct (record_of_print_padded l Hl) as [Hrec Hnum].
  destruct (IH Hls) as [IH1 IH2].
  rewrite !fmap_cons. split.
  - change (omap record_of (print_padded l :: (print_padded <$> ls)))
      with (match record_of (print_padded l) with
            | Some y => y :: omap record_of (print_padded <$> ls)
            | None => omap record_of (print_padded <$> ls)
            end).
    change (omap entry_of (unpad l :: (unpad <$> ls)))
      with (match entry_of (unpad l) with
            | Some y => y :: omap entry_of (unpad <$> ls)
            | None => omap entry_of (unpad <$> ls)
            end).
    by rewrite Hrec, IH1.
  - simpl. by rewrite Hnum, IH2.
Qed.

(** X11: white space around the numbers is not read. An output whose flow,
    node ids and codes are surrounded by white space (spaces or tabs around
    the ['='], a carriage return before each line feed, indented lines) is
    parsed to the same flow and the same mapping as the output without that
    white space. *)
Theorem bk_mfmc_parse_padded_output (SOURCE SINK : Z) (wa wb : pystr) (F : Z)
    (ls : list padded_line) (logger : Logger) :
  blanks wa = true -> blanks wb = true -> forallb well_padded ls = true ->
  (bk_mfmc_parse SOURCE SINK (padded_output wa wb F ls) logger).2
  = inr (F, entries (unpad <$> ls)).
Proof.
  intros Ha Hb Hwf.
  pose proof (split_padded_output wa wb F ls Ha Hb Hwf) as Hsplit.
  destruct (omap_record_of_print_padded ls Hwf) as [Hrecs Hnum].
  apply blanks_facts in Ha as (Ha & _ & _), Hb as (Hb & _ & _).
  rewrite bk_mfmc_parse_result, bk_mfmc_parse_body_eq.
  unfold first_line, later_lines. rewrite Hsplit.
  change (default [] (_ !! 0%nat))
    with (str "flow" ++ "="%char :: wa ++ format_int F ++ wb).
  change (drop 1 (_ :: (print_padded <$> ls))) with (print_padded <$> ls).
  destruct (fields_of_record (str "flow") (wa ++ format_int F ++ wb))
    as [_ ->]; [by repeat constructor|].
  rewrite (int_padded wa F wb Ha Hb). simpl.
  destruct (parse_lines_accepts _ ∅ Hnum) as (nodes & -> & Hlookup). simpl.
  do 2 f_equal. apply map_eq. intros k.
  rewrite Hlookup, lookup_empty. unfold last_code, entries.
  rewrite Hrecs, list_to_map_reverse_last.
  by destruct (last _).
Qed.

Lemma bk_mfmc_parse_padded_output_witness :
  (bk_mfmc_parse spec_SOURCE spec_SINK
     (padded_output (str " ") [CR] 12 example_padded_lines) []).2
  = inr (12, entries (unpad <$> example_padded_lines)).
Proof.
  apply (bk_mfmc_parse_padded_output spec_SOURCE spec_SINK (str " ") [CR] 12
           example_padded_lines []); reflexivity.
Defined.

(** * The parser and the applicator together *)

Lemma last_code_None k lines :
  last_code k lines = None -> ~ has_record lines k.
Proof.
  intros Hnone Hrec. apply last_code_is_Some in Hrec as [v Hv]. congruence.
Qed.

(** X12: the two functions compose into the segmentation. When an output is
    accepted, every region id of a label image has a record line in it and
    the codes of those ids fit the C long, applying the parsed mapping to the
    image returns a mask of the shape of the image, whose element is true
    exactly when the code on the last record line of that element's region
    id, cast to the element type of the image, is not zero. *)
Theorem parse_then_apply_mapping (SOURCE SINK : Z) (output : pystr)
    (logger : Logger) (label_image : ndarray) (st : gmap positive (list Z)) :
  malformed output = false ->
  (forall r, r ∈ elems label_image st -> has_record (later_lines output) r) ->
  (forall r, r ∈ elems label_image st ->
     forall code, last_code r (later_lines output) = Some code ->
       fits_C_long (dtype_of label_image) code = true) ->
  exists flow nodes m,
    (bk_mfmc_parse SOURCE SINK output logger).2 = inr (flow, nodes)
    /\ (apply_mapping label_image nodes st).2 = inr m
    /\ mask_shape m = shape label_image
    /\ forall (i : nat) r,
         elems label_image st !! i = Some r ->
         exists code,
           last_code r (later_lines output) = Some code
           /\ mask_data m !! i
              = Some (negb (cast (dtype_of label_image) code =? 0)).
Proof.
  intros Hok Hids Hfit.
  destruct (bk_mfmc_parse_body_accepts output Hok)
    as (flow & nodes & _ & Hbody & Hlookup).
  assert (Hall : forall r, r ∈ elems label_image st ->
                           storable (dtype_of label_image) nodes r).
  { intros r Hr.
    destruct (last_code_is_Some r _ (Hids r Hr)) as [code Hcode].
    exists code. split; [by rewrite Hlookup|by eapply Hfit]. }
  destruct (translate_total nodes _ _ Hall) as [vs Hvs].
  exists flow, nodes,
    (mk_mask (shape label_image) ((fun x : Z => negb (x =? 0)) <$> vs)).
  split; [by rewrite bk_mfmc_parse_result, Hbody|].
  split; [by rewrite apply_mapping_result, Hvs|].
  split; [done|]. intros i r Hi.
  apply translate_inr in Hvs.
  destruct (Forall2_lookup_l _ _ _ _ _ Hvs Hi) as (x & Hx & v & Hv & _ & ->).
  exists v. split; [by rewrite <- Hlookup|].
  simpl. by rewrite list_lookup_fmap, Hx.
Qed.

Lemma parse_then_apply_mapping_witness :
  exists flow nodes m,
    (bk_mfmc_parse spec_SOURCE spec_SINK example_output []).2
    = inr (flow, nodes)
    /\ (apply_mapping example_image nodes example_store).2 = inr m
    /\ mask_shape m = shape example_image
    /\ forall (i : nat) r,
         elems example_image example_store !! i = Some r ->
         exists code,
           last_code r (later_lines example_output) = Some code
           /\ mask_data m !! i
              = Some (negb (cast (dtype_of example_image) code =? 0)).
Proof.
  assert (H1 : has_record (later_lines example_output) 1).
  { exists (str "1=0"), 0. split; [|reflexivity].
    apply list_elem_of_lookup. by exists 0%nat. }
  assert (H2 : has_record (later_lines example_output) 2).
  { exists (str "2=1"), 1. split; [|reflexivity].
    apply list_elem_of_lookup. by exists 1%nat. }
  assert (H3 : has_record (later_lines example_output) 3).
  { exists (str "3=0"), 0. split; [|reflexivity].
    apply list_elem_of_lookup. by exists 4%nat. }
  apply (parse_then_apply_mapping spec_SOURCE spec_SINK example_output []
           example_image example_store); [reflexivity| |].
  - refine (proj1 (Forall_forall _ _) _).
    repeat (constructor; [assumption|]). constructor.
  - refine (proj1 (Forall_forall
                     (fun r => forall code,
                        last_code r (later_lines example_output) = Some code ->
                        fits_C_long (dtype_of example_image) code = true) _) _).
    repeat (constructor; [by intros code [= <-]|]). constructor.
Defined.

(** X13: a region id the solver output has no line for stops the
    segmentation. When an output is accepted, some region id of the image has
    no record line in it and the codes of the region ids that have one fit the
    C long, applying the parsed mapping raises the [ArgumentError] for the
    first such id in the order of the flattened image. *)
Theorem parse_then_apply_mapping_missing (SOURCE SINK : Z) (output : pystr)
    (logger : Logger) (label_image : ndarray) (st : gmap positive (list Z)) :
  malformed output = false ->
  (exists r, r ∈ elems label_image st /\ ~ has_record (later_lines output) r) ->
  (forall r, r ∈ elems label_image st ->
     forall code, last_code r (later_lines output) = Some code ->
       fits_C_long (dtype_of label_image) code = true) ->
  exists flow nodes pre r post,
    (bk_mfmc_parse SOURCE SINK output logger).2 = inr (flow, nodes)
    /\ elems label_image st = pre ++ r :: post
    /\ (forall x, x ∈ pre -> has_record (later_lines output) x)
    /\ ~ has_record (later_lines output) r
    /\ (apply_mapping label_image nodes st).2
       = inl (ArgumentError_NoConversion r).
Proof.
  intros Hok (r0 & Hin & Hnone) Hfit.
  destruct (bk_mfmc_parse_body_accepts output Hok)
    as (flow & nodes & _ & Hbody & Hlookup).
  assert (Hrec : forall k, is_Some (nodes !! k)
                           <-> has_record (later_lines output) k).
  { intros k. rewrite Hlookup. split; [|apply last_code_is_Some].
    intros [v Hv]. apply last_code_Some in Hv as (line & Hl & Hr).
    by exists line, v. }
  destruct (translate (dtype_of label_image) nodes (elems label_image st))
    as [e|vs] eqn:Ht.
  2:{ exfalso. apply translate_inr in Ht.
      apply list_elem_of_lookup in Hin as [i Hi].
      destruct (Forall2_lookup_l _ _ _ _ _ Ht Hi) as (x & _ & v & Hv & _).
      apply Hnone, Hrec. by eexists. }
  destruct (translate_inl nodes _ _ _ Ht)
    as (pre & r & post & Hsplit & Hpre & [[Hmiss ->]|(v & Hv & Hfits & ->)]).
  - exists flow, nodes, pre, r, post.
    split; [by rewrite bk_mfmc_parse_result, Hbody|].
    split; [done|]. split.
    { intros x Hx. apply Hrec. destruct (Hpre x Hx) as (v & -> & _).
      by eexists. }
    split.
    + intros Hhas. apply Hrec in Hhas as [v Hv]. congruence.
    + by rewrite apply_mapping_result, Ht.
  - exfalso. rewrite Hlookup in Hv.
    assert (r ∈ elems label_image st) as Hr.
    { rewrite Hsplit. apply elem_of_app. right. by left. }
    rewrite (Hfit r Hr v Hv) in Hfits. done.
Qed.

Lemma parse_then_apply_mapping_missing_witness :
  exists flow nodes pre r post,
    (bk_mfmc_parse spec_SOURCE spec_SINK example_output []).2
    = inr (flow, nodes)
    /\ elems image_with_5 store_with_5 = pre ++ r :: post
    /\ (forall x, x ∈ pre -> has_record (later_lines example_output) x)
    /\ ~ has_record (later_lines example_output) r
    /\ (apply_mapping image_with_5 nodes store_with_5).2
       = inl (ArgumentError_NoConversion r).
Proof.
  apply (parse_then_apply_mapping_missing spec_SOURCE spec_SINK example_output
           [] image_with_5 store_with_5); [reflexivity| |].
  - exists 5. split.
    + apply list_elem_of_lookup. by exists 1%nat.
    + apply last_code_None. reflexivity.
  - refine (proj1 (Forall_forall
                     (fun r => forall code,
                        last_code r (later_lines example_output) = Some code ->
                        fits_C_long (dtype_of image_with_5) code = true) _) _).
    repeat (constructor; [intros code Hc; vm_compute in Hc;
                          first [discriminate Hc
                                | by injection Hc as <-]|]).
    constructor.
Defined.

(** * Order of the lines *)

Lemma existsb_Permutation {A} (f : A -> bool) (l l' : list A) :
  l ≡ₚ l' -> existsb f l = existsb f l'.
Proof.
  intros Hperm.
  destruct (existsb f l) eqn:Hl, (existsb f l') eqn:Hl'; try done.
  - apply existsb_exists in Hl as (x & Hx & Hfx).
    apply not_true_iff_false in Hl'. exfalso. apply Hl'.
    apply existsb_exists. exists x. split; [|done].
    apply list_elem_of_In. apply list_elem_of_In in Hx. by rewrite <- Hperm.
  - apply existsb_exists in Hl' as (x & Hx & Hfx).
    apply not_true_iff_false in Hl. exfalso. apply Hl.
    apply existsb_exists. exists x. split; [|done].
    apply list_elem_of_In. apply list_elem_of_In in Hx. by rewrite Hperm.
Qed.

Lemma filter_key_NoDup (l : list (Z * Z)) (k : Z) :
  NoDup l.*1 ->
  (length (filter (fun kv : Z * Z => kv.1 = k) l) <= 1)%nat.
Proof.
  induction l as [|[k' v] l IH]; simpl; [lia|].
  intros [Hnotin Hnodup]%NoDup_cons. specialize (IH Hnodup).
  rewrite filter_cons. simpl. destruct (decide (k' = k)) as [->|]; [|done].
  assert (filter (fun kv : Z * Z => kv.1 = k) l = []) as ->; [|simpl; lia].
  destruct (filter _ l) as [|[k0 v0] rest] eqn:Hf; [done|].
  exfalso. apply Hnotin.
  assert ((k0, v0) ∈ filter (fun kv : Z * Z => kv.1 = k) l) as Hel
    by (rewrite Hf; by left).
  apply list_elem_of_filter in Hel as [Hk Hel]. simpl in Hk. subst k0.
  apply list_elem_of_fmap. by exists (k, v0).
Qed.

Lemma last_code_Permutation k lines lines' :
  lines ≡ₚ lines' -> NoDup (record_ids lines) ->
  last_code k lines = last_code k lines'.
Proof.
  intros Hperm Hnodup. unfold last_code. f_equal. f_equal.
  assert (Hf : filter (fun kv : Z * Z => kv.1 = k) (omap record_of lines)
               ≡ₚ filter (fun kv : Z * Z => kv.1 = k) (omap record_of lines'))
    by (by rewrite Hperm).
  pose proof (filter_key_NoDup _ k Hnodup) as Hlen.
  destruct (filter _ (omap record_of lines)) as [|x [|y rest]];
    [| |simpl in Hlen; lia].
  - by apply Permutation_nil_l in Hf.
  - by apply Permutation_singleton_l in Hf.
Qed.

(** X14: when no node id occurs on two record lines, the order of the lines
    after the first does not matter: two accepted outputs with the same first
    line whose later lines are a rearrangement of each other give the same
    flow and the same mapping. *)
Theorem bk_mfmc_parse_order_of_lines (SOURCE SINK : Z)
    (output output' : pystr) (logger : Logger) :
  malformed output = false ->
  first_line output = first_line output' ->
  later_lines output ≡ₚ later_lines output' ->
  NoDup (record_ids (later_lines output)) ->
  (bk_mfmc_parse SOURCE SINK output logger).2
  = (bk_mfmc_parse SOURCE SINK output' logger).2.
Proof.
  intros Hok Hfirst Hperm Hnodup.
  assert (Hok' : malformed output' = false).
  { unfold malformed in *.
    by rewrite <- Hfirst, <- (existsb_Permutation _ _ _ Hperm). }
  destruct (bk_mfmc_parse_body_accepts output Hok)
    as (flow & nodes & Hflow & Hbody & Hlookup).
  destruct (bk_mfmc_parse_body_accepts output' Hok')
    as (flow' & nodes' & Hflow' & Hbody' & Hlookup').
  rewrite !bk_mfmc_parse_result, Hbody, Hbody'.
  rewrite <- Hfirst, Hflow in Hflow'. injection Hflow' as <-.
  do 2 f_equal. apply map_eq. intros k.
  rewrite Hlookup, Hlookup'. by apply last_code_Permutation.
Qed.

Lemma bk_mfmc_parse_order_of_lines_witness :
  (bk_mfmc_parse spec_SOURCE spec_SINK example_output []).2
  = (bk_mfmc_parse spec_SOURCE spec_SINK example_reordered []).2.
Proof.
  apply (bk_mfmc_parse_order_of_lines spec_SOURCE spec_SINK example_output
           example_reordered []).
  - reflexivity.
  - reflexivity.
  - change (later_lines example_output)
      with [str "1=0"; str "2=1"; str "# comment"; []; str "3=0"].
    change (later_lines example_reordered)
      with [str "2=1"; str "1=0"; str "# comment"; []; str "3=0"].
    apply perm_swap.
  - change (record_ids (later_lines example_output)) with [1; 2; 3].
    by apply (bool_decide_unpack (NoDup [1; 2; 3])).
Defined.
